(** * trice, package [internal/decoder]: format specifier classification
      and endian readers.

    The development embeds [UReplaceN], the regular expressions it scans
    with, and the readers [ReadU16], [ReadU32], [ReadU64] of
    [internal/decoder/decoder.go].

    A Go [string] is a sequence of bytes; it is modelled as [list ascii]
    (an [ascii] is eight bits).  All patterns of the package mention ASCII
    characters only, and no byte of a multi-byte UTF-8 sequence is ASCII,
    so matching byte by byte finds the same byte indices as Go's
    rune-wise matcher. *)

From Stdlib Require Import Ascii String ZArith Lia Bool Arith List.
Import ListNotations.

Local Open Scope char_scope.
Local Open Scope list_scope.
Local Open Scope nat_scope.

(** ** Strings and slices *)

Definition gostring := list ascii.

(** A string literal as a Go string. *)
Definition str (s : string) : gostring := list_ascii_of_string s.

(** [s[lo:]]; Go panics ([None]) when [lo] exceeds the length. *)
Definition slice_from (s : gostring) (lo : nat) : option gostring :=
  if lo <=? length s then Some (skipn lo s) else None.

(** [s[:hi]]. *)
Definition slice_to (s : gostring) (hi : nat) : option gostring :=
  if hi <=? length s then Some (firstn hi s) else None.

(** [s[lo:hi]]. *)
Definition slice (s : gostring) (lo hi : nat) : option gostring :=
  if (lo <=? hi) && (hi <=? length s)
  then Some (firstn (hi - lo) (skipn lo s)) else None.

(** [strings.ReplaceAll(i, "%%", "__")]: the non-overlapping occurrences
    of the two-byte string are replaced from left to right. *)
Fixpoint ReplaceAll_pct (s : gostring) : gostring :=
  match s with
  | [] => []
  | c1 :: s1 =>
      match s1 with
      | [] => [c1]
      | c2 :: s2 =>
          if Ascii.eqb c1 "%" && Ascii.eqb c2 "%"
          then "_" :: "_" :: ReplaceAll_pct s2
          else c1 :: ReplaceAll_pct s1
      end
  end.

(** ** Regular expressions

    Every pattern of the package is a sequence of single-character items,
    some of them under a greedy star.  [match_here] is the backtracking
    matcher anchored at the head of the input, with Go's leftmost-first
    preference: a star first tries to take one more character and only
    then gives up the position to the rest of the pattern. *)

Inductive item : Type :=
| One (p : ascii -> bool)
| Star (p : ascii -> bool).

Definition regex := list item.

Fixpoint match_here (re : regex) : gostring -> option nat :=
  match re with
  | [] => fun _ => Some 0
  | One p :: re' =>
      fun s =>
        match s with
        | c :: s' => if p c then option_map S (match_here re' s') else None
        | [] => None
        end
  | Star p :: re' =>
      fix star (s : gostring) : option nat :=
        match s with
        | c :: s' =>
            if p c
            then match star s' with
                 | Some n => Some (S n)
                 | None => match_here re' s
                 end
            else match_here re' s
        | [] => match_here re' s
        end
  end.

(** [re.FindStringIndex(s)]: the leftmost match, as the pair of its start
    and end index, or [None] for Go's [nil]. *)
Fixpoint FindStringIndex (re : regex) (s : gostring) : option (nat * nat) :=
  match match_here re s with
  | Some n => Some (0, n)
  | None =>
      match s with
      | [] => None
      | _ :: s' =>
          match FindStringIndex re s' with
          | Some (a, b) => Some (S a, S b)
          | None => None
          end
      end
  end.

Definition found (re : regex) (s : gostring) : bool :=
  match FindStringIndex re s with Some _ => true | None => false end.

(** Character classes. *)
Definition chr (a : ascii) : ascii -> bool := Ascii.eqb a.

Definition one_of (cs : string) (c : ascii) : bool :=
  existsb (Ascii.eqb c) (list_ascii_of_string cs).

(** [0-9] *)
Definition digit (c : ascii) : bool :=
  (nat_of_ascii "0" <=? nat_of_ascii c) && (nat_of_ascii c <=? nat_of_ascii "9").

(** [[+\-#'0-9\.0-9]] *)
Definition spec_flag (c : ascii) : bool := one_of "+-#'" c || digit c || chr "." c.

(** [(b|c|d|e|f|g|E|F|G|h|i|l|L|n|o|O|p|q|t|u|x|X)] *)
Definition spec_letter : ascii -> bool := one_of "bcdefgEFGhilLnoOpqtuxX".

(** [[(+\-0-9\.0-9#]] *)
Definition f_flag (c : ascii) : bool := one_of "(+-" c || digit c || one_of ".#" c.

(** The compiled patterns, in the order of the source. *)
Definition matchNextFormatSpecifier : regex :=
  [One (chr "%"); Star spec_flag; One spec_letter].
Definition matchNextFormatUSpecifier : regex :=
  [One (chr "%"); Star digit; One (chr "u")].
Definition matchNextFormatISpecifier : regex :=
  [One (chr "%"); Star digit; One (chr "i")].
Definition matchNextFormatXSpecifier : regex :=
  [One (chr "%"); Star digit; One (one_of "loOxXbpt")].
Definition matchNextFormatFSpecifier : regex :=
  [One (chr "%"); Star f_flag; One (one_of "eEfFgG")].
Definition matchNextFormatBoolSpecifier : regex :=
  [One (chr "%"); One (chr "t")].
Definition matchNextFormatPointerSpecifier : regex :=
  [One (chr "%"); One (chr "p")].

(** ** Package variables

    The package-level variables a running decoder reads.  [UReplaceN]
    receives them as an explicit argument. *)
Record Globals : Type := {
  Verbose : bool;
  ShowID : gostring;
  TestTableMode : bool;
  Unsigned : bool;
  DebugOut : bool;
  DumpLineByteCount : Z;
  InitialCycle : bool
}.

(** ** UReplaceN *)

(** [o[:offset-1] + "d" + o[offset:]] *)
Definition put_d (o : gostring) (offset : nat) : option gostring :=
  match offset with
  | 0 => None
  | S k =>
      match slice_to o k, slice_from o offset with
      | Some l, Some r => Some (l ++ "d" :: r)
      | _, _ => None
      end
  end.

(** The [for] loop of [UReplaceN].  [i] is the masked input, [o] the
    output string under construction, [u] the kinds collected so far.
    [None] stands for a run that does not return: a slice out of range,
    or no fuel left. *)
Fixpoint UReplaceN_loop (g : Globals) (fuel : nat)
    (i o : gostring) (u : list Z) (offset : nat)
  : option (gostring * list Z) :=
  match fuel with
  | 0 => None
  | S fuel' =>
    match slice_from i offset with
    | None => None
    | Some s =>
      match FindStringIndex matchNextFormatSpecifier s with
      | None => Some (o, u)
      | Some (loc0, loc1) =>
        let offset := offset + loc1 in
        match slice s loc0 loc1 with
        | None => None
        | Some fm =>
          if found matchNextFormatPointerSpecifier fm then
            UReplaceN_loop g fuel' i o (u ++ [4%Z]) offset
          else if found matchNextFormatBoolSpecifier fm then
            UReplaceN_loop g fuel' i o (u ++ [3%Z]) offset
          else if found matchNextFormatFSpecifier fm then
            UReplaceN_loop g fuel' i o (u ++ [2%Z]) offset
          else if found matchNextFormatUSpecifier fm then
            match put_d o offset with
            | None => None
            | Some o' => UReplaceN_loop g fuel' i o' (u ++ [0%Z]) offset
            end
          else if found matchNextFormatISpecifier fm then
            match put_d o offset with
            | None => None
            | Some o' => UReplaceN_loop g fuel' i o' (u ++ [1%Z]) offset
            end
          else if found matchNextFormatXSpecifier fm then
            if Unsigned g
            then UReplaceN_loop g fuel' i o (u ++ [0%Z]) offset
            else UReplaceN_loop g fuel' i o (u ++ [1%Z]) offset
          else
            UReplaceN_loop g fuel' i o (u ++ [1%Z]) offset
        end
      end
    end
  end.

(** Every turn of the loop but the last moves [offset] forward, so the
    length of the input bounds the number of turns. *)
Definition UReplaceN (g : Globals) (i : gostring)
  : option (gostring * list Z) :=
  UReplaceN_loop g (S (length i)) (ReplaceAll_pct i) i [] 0.

Definition globals (unsigned : bool) : Globals :=
  {| Verbose := false; ShowID := []; TestTableMode := false;
     Unsigned := unsigned; DebugOut := false; DumpLineByteCount := 0;
     InitialCycle := true |}.

(** ** The classification rules as the specification words them

    A directive is the text of one match of the specifier pattern: a
    percent sign, flag characters, one conversion letter. *)

(** The string is flag characters followed by exactly one letter. *)
Fixpoint flags_then_letter (flag letter : ascii -> bool) (r : gostring) : bool :=
  match r with
  | [] => false
  | c :: r' =>
      match r' with
      | [] => letter c
      | _ :: _ => flag c && flags_then_letter flag letter r'
      end
  end.

(** The whole string is a percent sign, flags, one letter. *)
Definition shaped (flag letter : ascii -> bool) (fm : gostring) : bool :=
  match fm with
  | c :: r => chr "%" c && flags_then_letter flag letter r
  | [] => false
  end.

Definition no_flag (c : ascii) : bool := false.

Definition is_directive : gostring -> bool := shaped spec_flag spec_letter.
Definition is_pointer : gostring -> bool := shaped no_flag (chr "p").
Definition is_bool : gostring -> bool := shaped no_flag (chr "t").
Definition is_float : gostring -> bool := shaped f_flag (one_of "eEfFgG").
Definition is_unsigned_letter : gostring -> bool := shaped digit (chr "u").
Definition is_signed_letter : gostring -> bool := shaped digit (chr "i").
Definition is_hex_family : gostring -> bool := shaped digit (one_of "loOxXbpt").

(** The seven rules, in their precedence. *)
Inductive rule : Type :=
| RPointer | RBool | RFloat | RUnsignedLetter | RSignedLetter
| RHexFamily | RDefault.

Definition spec_rule (fm : gostring) : rule :=
  if is_pointer fm then RPointer
  else if is_bool fm then RBool
  else if is_float fm then RFloat
  else if is_unsigned_letter fm then RUnsignedLetter
  else if is_signed_letter fm then RSignedLetter
  else if is_hex_family fm then RHexFamily
  else RDefault.

(** Specifier kinds and the codes [UReplaceN] reports for them. *)
Inductive Kind : Type := KUnsigned | KSigned | KFloat | KBool | KPointer.

Definition code (k : Kind) : Z :=
  match k with
  | KUnsigned => 0 | KSigned => 1 | KFloat => 2 | KBool => 3 | KPointer => 4
  end%Z.

Definition rule_kind (hex_unsigned : bool) (r : rule) : Kind :=
  match r with
  | RPointer => KPointer
  | RBool => KBool
  | RFloat => KFloat
  | RUnsignedLetter => KUnsigned
  | RSignedLetter => KSigned
  | RHexFamily => if hex_unsigned then KUnsigned else KSigned
  | RDefault => KSigned
  end.

Definition rule_rewrites (r : rule) : bool :=
  match r with
  | RUnsignedLetter | RSignedLetter => true
  | _ => false
  end.

(** The directives of a masked string: every position at which the
    specifier pattern matches, with the matched text. *)
Fixpoint directives (s : gostring) (pos : nat) : list (nat * gostring) :=
  match s with
  | [] => []
  | _ :: s' =>
      match match_here matchNextFormatSpecifier s with
      | Some n => (pos, firstn n s) :: directives s' (S pos)
      | None => directives s' (S pos)
      end
  end.

(** Index one past the last byte of a directive. *)
Definition d_end (d : nat * gostring) : nat := fst d + length (snd d).

(** [o] with the byte at index [j] replaced. *)
Definition update (o : gostring) (j : nat) (c : ascii) : gostring :=
  firstn j o ++ c :: skipn (S j) o.

Definition rewrite_step (o : gostring) (d : nat * gostring) : gostring :=
  if rule_rewrites (spec_rule (snd d)) then update o (d_end d - 1) "d" else o.

Definition kinds_of (hex_unsigned : bool) (ds : list (nat * gostring)) : list Z :=
  map (fun d => code (rule_kind hex_unsigned (spec_rule (snd d)))) ds.

(** No byte of the string is a percent sign. *)
Definition no_pct (s : gostring) : bool :=
  forallb (fun c => negb (chr "%" c)) s.

(** The string is made of bytes other than the percent sign and of
    [%%] pairs only. *)
Fixpoint literal_or_escapes (s : gostring) : bool :=
  match s with
  | [] => true
  | c1 :: s1 =>
      if Ascii.eqb c1 "%"
      then match s1 with
           | c2 :: s2 => Ascii.eqb c2 "%" && literal_or_escapes s2
           | [] => false
           end
      else literal_or_escapes s1
  end.

(** Does a rewriting directive of [ds] have its letter at index [j]? *)
Definition rewritten_at (ds : list (nat * gostring)) (j : nat) : bool :=
  existsb (fun d => rule_rewrites (spec_rule (snd d)) && (d_end d - 1 =? j)) ds.

(** Two character classes without a common member. *)
Definition disjoint (p q : ascii -> bool) : Prop :=
  forall c, p c = true -> q c = false.

(** Length of the longest prefix inside a class. *)
Fixpoint span (p : ascii -> bool) (s : gostring) : nat :=
  match s with
  | c :: s' => if p c then S (span p s') else 0
  | [] => 0
  end.

(** Two bytes that the specifier pattern cannot tell apart: both or
    neither a percent sign, a flag, a conversion letter. *)
Definition same_class (a b : ascii) : Prop :=
  chr "%" a = chr "%" b /\ spec_flag a = spec_flag b /\
  spec_letter a = spec_letter b.

(** ** Endian readers *)

Local Open Scope Z_scope.

Definition byte_val (b : Byte.byte) : Z := Z.of_N (Byte.to_N b).

(** [x << n] on a [w]-bit unsigned integer. *)
Definition shl (w : Z) (x n : Z) : Z := Z.shiftl x n mod 2 ^ w.

(** [binary.LittleEndian] and [binary.BigEndian] of Go's [encoding/binary]:
    each reader first indexes the last byte it needs, which panics
    ([None]) on a shorter slice. *)
Module LittleEndian.
Definition Uint16 (b : list Byte.byte) : option Z :=
  match b with
  | b0 :: b1 :: _ => Some (Z.lor (byte_val b0) (shl 16 (byte_val b1) 8))
  | _ => None
  end.

Definition Uint32 (b : list Byte.byte) : option Z :=
  match b with
  | b0 :: b1 :: b2 :: b3 :: _ =>
      Some (Z.lor (Z.lor (Z.lor (byte_val b0) (shl 32 (byte_val b1) 8))
                         (shl 32 (byte_val b2) 16))
                  (shl 32 (byte_val b3) 24))
  | _ => None
  end.

Definition Uint64 (b : list Byte.byte) : option Z :=
  match b with
  | b0 :: b1 :: b2 :: b3 :: b4 :: b5 :: b6 :: b7 :: _ =>
      Some (Z.lor (Z.lor (Z.lor (Z.lor (Z.lor (Z.lor (Z.lor
             (byte_val b0) (shl 64 (byte_val b1) 8))
             (shl 64 (byte_val b2) 16)) (shl 64 (byte_val b3) 24))
             (shl 64 (byte_val b4) 32)) (shl 64 (byte_val b5) 40))
             (shl 64 (byte_val b6) 48)) (shl 64 (byte_val b7) 56))
  | _ => None
  end.
End LittleEndian.

Module BigEndian.
Definition Uint16 (b : list Byte.byte) : option Z :=
  match b with
  | b0 :: b1 :: _ => Some (Z.lor (byte_val b1) (shl 16 (byte_val b0) 8))
  | _ => None
  end.

Definition Uint32 (b : list Byte.byte) : option Z :=
  match b with
  | b0 :: b1 :: b2 :: b3 :: _ =>
      Some (Z.lor (Z.lor (Z.lor (byte_val b3) (shl 32 (byte_val b2) 8))
                         (shl 32 (byte_val b1) 16))
                  (shl 32 (byte_val b0) 24))
  | _ => None
  end.

Definition Uint64 (b : list Byte.byte) : option Z :=
  match b with
  | b0 :: b1 :: b2 :: b3 :: b4 :: b5 :: b6 :: b7 :: _ =>
      Some (Z.lor (Z.lor (Z.lor (Z.lor (Z.lor (Z.lor (Z.lor
             (byte_val b7) (shl 64 (byte_val b6) 8))
             (shl 64 (byte_val b5) 16)) (shl 64 (byte_val b4) 24))
             (shl 64 (byte_val b3) 32)) (shl 64 (byte_val b2) 40))
             (shl 64 (byte_val b1) 48)) (shl 64 (byte_val b0) 56))
  | _ => None
  end.
End BigEndian.

(** [DecoderData], the data common to all decoders.  The fields [W],
    [In], [Lut], [LutMutex], [Li] and [Trice] hold values of other
    packages; they are kept together in [Handles]. *)
Record DecoderData {H : Type} : Type := {
  Handles : H;
  IBuf : list Byte.byte;
  B : list Byte.byte;
  Endian : bool;
  TriceSize : Z;
  ParamSpace : Z;
  SLen : Z
}.
Arguments DecoderData : clear implicits.

(** What a call of a method on [*DecoderData] with a slice leaves behind:
    the returned value, the receiver and the bytes of the slice after
    the call. *)
Record outcome {H : Type} : Type := {
  value : Z;
  receiver : DecoderData H;
  bytes : list Byte.byte
}.
Arguments outcome : clear implicits.

Definition returning {H} (p : DecoderData H) (b : list Byte.byte)
    (r : option Z) : option (outcome H) :=
  match r with
  | Some v => Some {| value := v; receiver := p; bytes := b |}
  | None => None
  end.

Definition ReadU16 {H} (p : DecoderData H) (b : list Byte.byte)
  : option (outcome H) :=
  if Endian p then returning p b (LittleEndian.Uint16 b)
  else returning p b (BigEndian.Uint16 b).

Definition ReadU32 {H} (p : DecoderData H) (b : list Byte.byte)
  : option (outcome H) :=
  if Endian p then returning p b (LittleEndian.Uint32 b)
  else returning p b (BigEndian.Uint32 b).

Definition ReadU64 {H} (p : DecoderData H) (b : list Byte.byte)
  : option (outcome H) :=
  if Endian p then returning p b (LittleEndian.Uint64 b)
  else returning p b (BigEndian.Uint64 b).

(** The three readers, by the width they read. *)
Inductive width : Type := W16 | W32 | W64.

Definition nbytes (w : width) : nat :=
  match w with W16 => 2 | W32 => 4 | W64 => 8 end%nat.

Definition ReadU {H} (w : width)
  : DecoderData H -> list Byte.byte -> option (outcome H) :=
  match w with W16 => ReadU16 | W32 => ReadU32 | W64 => ReadU64 end.

(** The unsigned integer a byte sequence encodes, least significant byte
    first and most significant byte first. *)
Definition little_endian (bs : list Byte.byte) : Z :=
  fold_right (fun x acc => byte_val x + 256 * acc) 0 bs.

Definition big_endian (bs : list Byte.byte) : Z :=
  fold_left (fun acc x => 256 * acc + byte_val x) bs 0.

Definition decode (little : bool) (bs : list Byte.byte) : Z :=
  if little then little_endian bs else big_endian bs.

(** ** EXTI low-level driver ([stm32f0xx_ll_exti.i])

    The six registers of the EXTI peripheral, as the 32-bit memory
    cells the C code reads and writes through [EXTI_TypeDef]. *)
Module EXTI.

Record EXTI_TypeDef : Type := {
  IMR : Z;
  EMR : Z;
  RTSR : Z;
  FTSR : Z;
  SWIER : Z;
  PR : Z
}.

(** [~x] on a [uint32_t]. *)
Definition not32 (x : Z) : Z := Z.lnot x mod 2 ^ 32.

(** [r |= m] and [r &= ~m]. *)
Definition set_bits (r m : Z) : Z := Z.lor r m.
Definition clear_bits (r m : Z) : Z := Z.land r (not32 m).

(** [(r & m) == m], as the [uint32_t] the C comparison yields. *)
Definition all_set (r m : Z) : Z := if Z.land r m =? m then 1 else 0.

Definition with_IMR (s : EXTI_TypeDef) (v : Z) : EXTI_TypeDef :=
  {| IMR := v; EMR := EMR s; RTSR := RTSR s; FTSR := FTSR s;
     SWIER := SWIER s; PR := PR s |}.
Definition with_EMR (s : EXTI_TypeDef) (v : Z) : EXTI_TypeDef :=
  {| IMR := IMR s; EMR := v; RTSR := RTSR s; FTSR := FTSR s;
     SWIER := SWIER s; PR := PR s |}.
Definition with_RTSR (s : EXTI_TypeDef) (v : Z) : EXTI_TypeDef :=
  {| IMR := IMR s; EMR := EMR s; RTSR := v; FTSR := FTSR s;
     SWIER := SWIER s; PR := PR s |}.
Definition with_FTSR (s : EXTI_TypeDef) (v : Z) : EXTI_TypeDef :=
  {| IMR := IMR s; EMR := EMR s; RTSR := RTSR s; FTSR := v;
     SWIER := SWIER s; PR := PR s |}.

Definition LL_EXTI_EnableIT_0_31 (ExtiLine : Z) (s : EXTI_TypeDef) :=
  with_IMR s (set_bits (IMR s) ExtiLine).
Definition LL_EXTI_DisableIT_0_31 (ExtiLine : Z) (s : EXTI_TypeDef) :=
  with_IMR s (clear_bits (IMR s) ExtiLine).
Definition LL_EXTI_IsEnabledIT_0_31 (ExtiLine : Z) (s : EXTI_TypeDef) : Z :=
  all_set (IMR s) ExtiLine.

Definition LL_EXTI_EnableEvent_0_31 (ExtiLine : Z) (s : EXTI_TypeDef) :=
  with_EMR s (set_bits (EMR s) ExtiLine).
Definition LL_EXTI_DisableEvent_0_31 (ExtiLine : Z) (s : EXTI_TypeDef) :=
  with_EMR s (clear_bits (EMR s) ExtiLine).
Definition LL_EXTI_IsEnabledEvent_0_31 (ExtiLine : Z) (s : EXTI_TypeDef) : Z :=
  all_set (EMR s) ExtiLine.

Definition LL_EXTI_EnableRisingTrig_0_31 (ExtiLine : Z) (s : EXTI_TypeDef) :=
  with_RTSR s (set_bits (RTSR s) ExtiLine).
Definition LL_EXTI_DisableRisingTrig_0_31 (ExtiLine : Z) (s : EXTI_TypeDef) :=
  with_RTSR s (clear_bits (RTSR s) ExtiLine).
Definition LL_EXTI_IsEnabledRisingTrig_0_31 (ExtiLine : Z) (s : EXTI_TypeDef) : Z :=
  all_set (RTSR s) ExtiLine.

Definition LL_EXTI_EnableFallingTrig_0_31 (ExtiLine : Z) (s : EXTI_TypeDef) :=
  with_FTSR s (set_bits (FTSR s) ExtiLine).
Definition LL_EXTI_DisableFallingTrig_0_31 (ExtiLine : Z) (s : EXTI_TypeDef) :=
  with_FTSR s (clear_bits (FTSR s) ExtiLine).
Definition LL_EXTI_IsEnabledFallingTrig_0_31 (ExtiLine : Z) (s : EXTI_TypeDef) : Z :=
  all_set (FTSR s) ExtiLine.

Inductive FunctionalState : Type := DISABLE | ENABLE.
Inductive ErrorStatus : Type := SUCCESS | ERROR.

(** [LL_EXTI_InitTypeDef]; [Mode] and [Trigger] are [uint8_t]. *)
Record LL_EXTI_InitTypeDef : Type := {
  Line_0_31 : Z;
  LineCommand : FunctionalState;
  Mode : Z;
  Trigger : Z
}.

Definition LL_EXTI_DeInit (s : EXTI_TypeDef) : ErrorStatus * EXTI_TypeDef :=
  (SUCCESS,
   {| IMR := 0x0F940000; EMR := 0; RTSR := 0; FTSR := 0; SWIER := 0;
      PR := 0x007BFFFF |}).

(** The [switch] on [Mode]. *)
Definition init_mode (st : LL_EXTI_InitTypeDef) (status : ErrorStatus)
    (s : EXTI_TypeDef) : ErrorStatus * EXTI_TypeDef :=
  if Mode st =? 0 then
    (status, LL_EXTI_EnableIT_0_31 (Line_0_31 st)
               (LL_EXTI_DisableEvent_0_31 (Line_0_31 st) s))
  else if Mode st =? 1 then
    (status, LL_EXTI_EnableEvent_0_31 (Line_0_31 st)
               (LL_EXTI_DisableIT_0_31 (Line_0_31 st) s))
  else if Mode st =? 2 then
    (status, LL_EXTI_EnableEvent_0_31 (Line_0_31 st)
               (LL_EXTI_EnableIT_0_31 (Line_0_31 st) s))
  else (ERROR, s).

(** The [switch] on [Trigger]. *)
Definition init_trigger (st : LL_EXTI_InitTypeDef) (status : ErrorStatus)
    (s : EXTI_TypeDef) : ErrorStatus * EXTI_TypeDef :=
  if Trigger st =? 1 then
    (status, LL_EXTI_EnableRisingTrig_0_31 (Line_0_31 st)
               (LL_EXTI_DisableFallingTrig_0_31 (Line_0_31 st) s))
  else if Trigger st =? 2 then
    (status, LL_EXTI_EnableFallingTrig_0_31 (Line_0_31 st)
               (LL_EXTI_DisableRisingTrig_0_31 (Line_0_31 st) s))
  else if Trigger st =? 3 then
    (status, LL_EXTI_EnableFallingTrig_0_31 (Line_0_31 st)
               (LL_EXTI_EnableRisingTrig_0_31 (Line_0_31 st) s))
  else (ERROR, s).

Definition LL_EXTI_Init (st : LL_EXTI_InitTypeDef) (s : EXTI_TypeDef)
  : ErrorStatus * EXTI_TypeDef :=
  let status := SUCCESS in
  match LineCommand st with
  | ENABLE =>
      if negb (Line_0_31 st =? 0) then
        let '(status, s) := init_mode st status s in
        if negb (Trigger st =? 0) then init_trigger st status s
        else (status, s)
      else (status, s)
  | DISABLE =>
      (status, LL_EXTI_DisableEvent_0_31 (Line_0_31 st)
                 (LL_EXTI_DisableIT_0_31 (Line_0_31 st) s))
  end.

Definition LL_EXTI_StructInit (st : LL_EXTI_InitTypeDef) : LL_EXTI_InitTypeDef :=
  {| Line_0_31 := 0; LineCommand := DISABLE; Mode := 0; Trigger := 2 |}.

(** A register file of 32-bit cells. *)
Definition word (x : Z) : Prop := 0 <= x < 2 ^ 32.

Definition words (s : EXTI_TypeDef) : Prop :=
  word (IMR s) /\ word (EMR s) /\ word (RTSR s) /\ word (FTSR s) /\
  word (SWIER s) /\ word (PR s).

End EXTI.

Local Close Scope Z_scope.

(** ** Dump

    An [io.Writer], as the byte strings handed to its [Write], one per
    call; [Dump] drops what the calls return. *)
Definition Writer := list gostring.

Definition Write (w : Writer) (data : gostring) : Writer := w ++ [data].

(** The digits of Go's [fmt]. *)
Definition ldigits : gostring := str "0123456789abcdef".

(** The two digits [%02x] prints for a byte. *)
Definition hex2 (x : Byte.byte) : gostring :=
  let n := N.to_nat (Byte.to_N x) in
  [nth (n / 16) ldigits "0"; nth (n mod 16) ldigits "0"].

(** [fmt.Fprintf(w, "%02x ", x)] *)
Definition Fprintf_02x (w : Writer) (x : Byte.byte) : Writer :=
  Write w (hex2 x ++ [" "]).

Definition newline : ascii := ascii_of_nat 10.

(** [fmt.Fprintln(w, "")] *)
Definition Fprintln_empty (w : Writer) : Writer := Write w [newline].

Definition Dump (w : Writer) (b : list Byte.byte) : Writer :=
  Fprintln_empty (fold_left Fprintf_02x b w).

(** All that a writer has been handed, in order. *)
Definition written (w : Writer) : gostring := concat w.

(** Reading a dumped line back. *)
Definition hex_val (c : ascii) : option nat :=
  (fix index (ds : gostring) (k : nat) : option nat :=
     match ds with
     | [] => None
     | d :: ds' => if Ascii.eqb c d then Some k else index ds' (S k)
     end) ldigits 0.

Fixpoint undump (s : gostring) : option (list Byte.byte) :=
  match s with
  | [] => None
  | c :: s1 =>
      match s1 with
      | [] => if Ascii.eqb c newline then Some [] else None
      | l :: s2 =>
          match s2 with
          | [] => None
          | sp :: rest =>
              match hex_val c, hex_val l, Ascii.eqb sp " " with
              | Some a, Some b, true =>
                  match Byte.of_N (N.of_nat (16 * a + b)), undump rest with
                  | Some x, Some bs => Some (x :: bs)
                  | _, _ => None
                  end
              | _, _, _ => None
              end
          end
      end
  end.

(** * Proofs *)

(** ** Character classes *)

Arguments chr : simpl never.
Arguments one_of : simpl never.
Arguments digit : simpl never.
Arguments spec_flag : simpl never.
Arguments spec_letter : simpl never.
Arguments f_flag : simpl never.

Ltac ascii_cases c :=
  destruct c as [[] [] [] [] [] [] [] []]; vm_compute;
  try reflexivity; try (intros; discriminate); try (intros; congruence).

Lemma disjoint_sym p q : disjoint p q -> disjoint q p.
Proof.
  intros H c Hq. destruct (p c) eqn:E; [|reflexivity].
  apply H in E. congruence.
Qed.

Lemma flag_not_letter : disjoint spec_flag spec_letter.
Proof. intros c. ascii_cases c. Qed.

Lemma flag_not_pct : disjoint spec_flag (chr "%").
Proof. intros c. ascii_cases c. Qed.

Lemma letter_not_pct : disjoint spec_letter (chr "%").
Proof. intros c. ascii_cases c. Qed.

Lemma digit_not_u : disjoint digit (chr "u").
Proof. intros c. ascii_cases c. Qed.

Lemma digit_not_i : disjoint digit (chr "i").
Proof. intros c. ascii_cases c. Qed.

Lemma digit_not_hex : disjoint digit (one_of "loOxXbpt").
Proof. intros c. ascii_cases c. Qed.

Lemma f_flag_not_f : disjoint f_flag (one_of "eEfFgG").
Proof. intros c. ascii_cases c. Qed.

Lemma flag_not_u : disjoint spec_flag (chr "u").
Proof. intros c. ascii_cases c. Qed.

Lemma flag_not_i : disjoint spec_flag (chr "i").
Proof. intros c. ascii_cases c. Qed.

Lemma flag_not_hex : disjoint spec_flag (one_of "loOxXbpt").
Proof. intros c. ascii_cases c. Qed.

Lemma flag_not_f : disjoint spec_flag (one_of "eEfFgG").
Proof. intros c. ascii_cases c. Qed.

Lemma flag_not_p : disjoint spec_flag (chr "p").
Proof. intros c. ascii_cases c. Qed.

Lemma flag_not_t : disjoint spec_flag (chr "t").
Proof. intros c. ascii_cases c. Qed.

Lemma chr_eq a c : chr a c = true <-> c = a.
Proof.
  unfold chr. rewrite Ascii.eqb_eq. split; congruence.
Qed.

(** ** The matcher on the shapes of the package's patterns *)

Section ThreeItems.
Variables p0 pf pl : ascii -> bool.
Hypothesis pf_pl : disjoint pf pl.

Lemma match_star_letter r :
  match_here [Star pf; One pl] r =
  match nth_error r (span pf r) with
  | Some l => if pl l then Some (S (span pf r)) else None
  | None => None
  end.
Proof.
  induction r as [|c r IH].
  - reflexivity.
  - cbn [match_here] in *. cbn [span]. destruct (pf c) eqn:Ec.
    + rewrite IH. cbn [nth_error].
      destruct (nth_error r (span pf r)) as [l|].
      * destruct (pl l); [reflexivity|].
        rewrite (pf_pl c Ec). reflexivity.
      * rewrite (pf_pl c Ec). reflexivity.
    + cbn [nth_error]. destruct (pl c); reflexivity.
Qed.

Lemma match_three s :
  match_here [One p0; Star pf; One pl] s =
  match s with
  | c :: r =>
      if p0 c then
        match nth_error r (span pf r) with
        | Some l => if pl l then Some (span pf r + 2) else None
        | None => None
        end
      else None
  | [] => None
  end.
Proof.
  destruct s as [|c r]; [reflexivity|].
  change (match_here [One p0; Star pf; One pl] (c :: r))
    with (if p0 c then option_map S (match_here [Star pf; One pl] r) else None).
  destruct (p0 c); [|reflexivity].
  rewrite match_star_letter.
  destruct (nth_error r (span pf r)) as [l|]; [|reflexivity].
  destruct (pl l); [|reflexivity].
  cbn. f_equal. lia.
Qed.

Lemma span_flags fl l rest :
  forallb pf fl = true -> pf l = false ->
  span pf (fl ++ l :: rest) = length fl.
Proof.
  intros Hfl Hl. induction fl as [|c fl IH]; cbn in *.
  - rewrite Hl. reflexivity.
  - apply andb_prop in Hfl as [Hc Hfl]. rewrite Hc, IH by assumption.
    reflexivity.
Qed.

Lemma span_le s : span pf s <= length s.
Proof.
  induction s as [|c s IH]; cbn; [lia|]. destruct (pf c); cbn; lia.
Qed.

Lemma span_forallb s : forallb pf (firstn (span pf s) s) = true.
Proof.
  induction s as [|c s IH]; cbn; [reflexivity|].
  destruct (pf c) eqn:E; cbn; [|reflexivity]. rewrite E, IH. reflexivity.
Qed.
End ThreeItems.

Lemma flags_then_letter_app flag letter fl l :
  flags_then_letter flag letter (fl ++ [l]) = forallb flag fl && letter l.
Proof.
  induction fl as [|c fl IH]; cbn [app flags_then_letter forallb].
  - reflexivity.
  - rewrite IH. destruct (fl ++ [l]) eqn:E.
    + destruct fl; discriminate.
    + rewrite andb_assoc. reflexivity.
Qed.

Lemma flags_then_letter_inv flag letter r :
  flags_then_letter flag letter r = true ->
  exists fl l, r = fl ++ [l] /\ forallb flag fl = true /\ letter l = true.
Proof.
  induction r as [|c r IH]; cbn [flags_then_letter]; [discriminate|].
  destruct r as [|c' r'].
  - intros H. exists [], c. auto.
  - intros H. apply andb_prop in H as [Hc H].
    destruct (IH H) as (fl & l & E & Hfl & Hl).
    exists (c :: fl), l. rewrite E. cbn. rewrite Hc, Hfl. auto.
Qed.

Lemma shaped_inv flag letter fm :
  shaped flag letter fm = true ->
  exists fl l, fm = "%" :: fl ++ [l] /\ forallb flag fl = true /\ letter l = true.
Proof.
  destruct fm as [|c r]; cbn [shaped]; [discriminate|].
  intros H. apply andb_prop in H as [Hc H]. apply chr_eq in Hc. subst c.
  destruct (flags_then_letter_inv _ _ _ H) as (fl & l & E & Hfl & Hl).
  exists fl, l. subst r. auto.
Qed.

Lemma shaped_app flag letter fl l :
  shaped flag letter ("%" :: fl ++ [l]) = forallb flag fl && letter l.
Proof.
  cbn [shaped]. rewrite flags_then_letter_app. reflexivity.
Qed.

(** ** The sub-patterns on the text of one directive *)

Lemma match_here_pct_head re c r :
  chr "%" c = false -> match_here (One (chr "%") :: re) (c :: r) = None.
Proof. intros H. cbn [match_here]. rewrite H. reflexivity. Qed.

Lemma find_no_pct re s :
  no_pct s = true -> FindStringIndex (One (chr "%") :: re) s = None.
Proof.
  induction s as [|c s IH]; intros H.
  - reflexivity.
  - cbn [no_pct forallb] in H. apply andb_prop in H as [Hc Hs].
    apply negb_true_iff in Hc.
    cbn [FindStringIndex]. rewrite match_here_pct_head by assumption.
    rewrite IH by assumption. reflexivity.
Qed.

Lemma find_at_head re c r :
  no_pct r = true ->
  FindStringIndex (One (chr "%") :: re) (c :: r) =
  match match_here (One (chr "%") :: re) (c :: r) with
  | Some n => Some (0, n)
  | None => None
  end.
Proof.
  intros H. cbn [FindStringIndex].
  destruct (match_here _ (c :: r)); [reflexivity|].
  rewrite find_no_pct by assumption. reflexivity.
Qed.

Lemma no_pct_app s t : no_pct (s ++ t) = no_pct s && no_pct t.
Proof. apply forallb_app. Qed.

Lemma flags_no_pct fl : forallb spec_flag fl = true -> no_pct fl = true.
Proof.
  induction fl as [|c fl IH]; cbn [forallb no_pct]; [reflexivity|].
  intros H. apply andb_prop in H as [Hc H].
  rewrite (flag_not_pct c Hc). apply IH. assumption.
Qed.

Lemma directive_tail_no_pct fl l :
  forallb spec_flag fl = true -> spec_letter l = true ->
  no_pct (fl ++ [l]) = true.
Proof.
  intros Hfl Hl. rewrite no_pct_app, flags_no_pct by assumption.
  cbn. rewrite (letter_not_pct l Hl). reflexivity.
Qed.

Section SubPattern.
Variables pf pl : ascii -> bool.
Hypothesis pf_pl : disjoint pf pl.
Hypothesis flag_pl : disjoint spec_flag pl.

Lemma match_star_letter_whole fl l :
  forallb spec_flag fl = true ->
  match_here [Star pf; One pl] (fl ++ [l]) =
  if forallb pf fl && pl l then Some (S (length fl)) else None.
Proof.
  induction fl as [|c fl IH]; intros Hfl.
  - cbn. destruct (pf l) eqn:E.
    + rewrite (pf_pl l E). reflexivity.
    + destruct (pl l); reflexivity.
  - cbn [forallb] in Hfl. apply andb_prop in Hfl as [Hc Hfl].
    specialize (IH Hfl). cbn [match_here app] in *.
    rewrite (flag_pl c Hc). cbn [forallb length].
    destruct (pf c); cbn [andb]; [|reflexivity].
    rewrite IH. destruct (forallb pf fl && pl l); reflexivity.
Qed.

Lemma found_three fl l :
  forallb spec_flag fl = true -> spec_letter l = true ->
  found [One (chr "%"); Star pf; One pl] ("%" :: fl ++ [l]) =
  shaped pf pl ("%" :: fl ++ [l]).
Proof.
  intros Hfl Hl. unfold found.
  rewrite find_at_head by (apply directive_tail_no_pct; assumption).
  change (match_here [One (chr "%"); Star pf; One pl] ("%" :: fl ++ [l]))
    with (option_map S (match_here [Star pf; One pl] (fl ++ [l]))).
  rewrite match_star_letter_whole by assumption.
  rewrite shaped_app.
  destruct (forallb pf fl && pl l); reflexivity.
Qed.
End SubPattern.

Lemma found_two a fl l :
  forallb spec_flag fl = true -> spec_letter l = true ->
  disjoint spec_flag (chr a) ->
  found [One (chr "%"); One (chr a)] ("%" :: fl ++ [l]) =
  shaped no_flag (chr a) ("%" :: fl ++ [l]).
Proof.
  intros Hfl Hl Ha. unfold found.
  rewrite find_at_head by (apply directive_tail_no_pct; assumption).
  rewrite shaped_app.
  destruct fl as [|c fl].
  - cbn. destruct (chr a l); reflexivity.
  - cbn [forallb] in Hfl. apply andb_prop in Hfl as [Hc _].
    cbn. rewrite (Ha c Hc). reflexivity.
Qed.

(** On the text of a directive the searches of the source decide exactly
    the shapes of the rules. *)
Lemma found_rules fm :
  is_directive fm = true ->
  found matchNextFormatPointerSpecifier fm = is_pointer fm /\
  found matchNextFormatBoolSpecifier fm = is_bool fm /\
  found matchNextFormatFSpecifier fm = is_float fm /\
  found matchNextFormatUSpecifier fm = is_unsigned_letter fm /\
  found matchNextFormatISpecifier fm = is_signed_letter fm /\
  found matchNextFormatXSpecifier fm = is_hex_family fm.
Proof.
  intros H. apply shaped_inv in H as (fl & l & -> & Hfl & Hl).
  repeat split.
  - apply found_two; auto using flag_not_p.
  - apply found_two; auto using flag_not_t.
  - apply found_three; auto using f_flag_not_f, flag_not_f.
  - apply found_three; auto using digit_not_u, flag_not_u.
  - apply found_three; auto using digit_not_i, flag_not_i.
  - apply found_three; auto using digit_not_hex, flag_not_hex.
Qed.

(** ** Matches of the specifier pattern *)

Lemma directive_text fl l :
  forallb spec_flag fl = true -> spec_letter l = true ->
  is_directive ("%" :: fl ++ [l]) = true.
Proof.
  intros Hfl Hl. unfold is_directive. rewrite shaped_app, Hfl, Hl. reflexivity.
Qed.

Lemma match_here_spec_inv s n :
  match_here matchNextFormatSpecifier s = Some n ->
  exists fl l rest,
    s = "%" :: fl ++ l :: rest /\ forallb spec_flag fl = true /\
    spec_letter l = true /\ n = length fl + 2.
Proof.
  unfold matchNextFormatSpecifier.
  rewrite (match_three _ _ _ flag_not_letter).
  destruct s as [|c r]; [discriminate|].
  destruct (chr "%" c) eqn:Ec; [|discriminate].
  apply chr_eq in Ec. subst c.
  destruct (nth_error r (span spec_flag r)) as [l|] eqn:En; [|discriminate].
  destruct (spec_letter l) eqn:El; [|discriminate].
  intros [= <-].
  destruct (nth_error_split _ _ En) as (l1 & l2 & Er & Hlen).
  exists l1, l, l2.
  assert (Hfl : forallb spec_flag l1 = true).
  { pose proof (span_forallb spec_flag r) as H.
    rewrite <- Hlen, Er in H.
    rewrite firstn_app, firstn_all, Nat.sub_diag in H.
    cbn [firstn] in H. rewrite app_nil_r in H. exact H. }
  split; [congruence|]. split; [exact Hfl|]. split; [exact El|]. lia.
Qed.

Lemma match_here_spec_intro fl l rest :
  forallb spec_flag fl = true -> spec_letter l = true ->
  match_here matchNextFormatSpecifier ("%" :: fl ++ l :: rest)
  = Some (length fl + 2).
Proof.
  intros Hfl Hl. unfold matchNextFormatSpecifier.
  rewrite (match_three _ _ _ flag_not_letter).
  assert (Hnl : spec_flag l = false)
    by (apply (disjoint_sym _ _ flag_not_letter); assumption).
  replace (chr "%" "%") with true by reflexivity.
  rewrite (span_flags _ fl l rest Hfl Hnl).
  rewrite nth_error_app2, Nat.sub_diag by lia.
  cbn [nth_error]. rewrite Hl. reflexivity.
Qed.

Lemma directives_skip l s pos :
  no_pct l = true -> directives (l ++ s) pos = directives s (pos + length l).
Proof.
  revert pos. induction l as [|c l IH]; intros pos H.
  - cbn. f_equal. lia.
  - cbn [no_pct forallb] in H. apply andb_prop in H as [Hc H].
    apply negb_true_iff in Hc.
    cbn [app directives length]. unfold matchNextFormatSpecifier at 1.
    rewrite match_here_pct_head by assumption.
    rewrite IH by assumption. f_equal. lia.
Qed.

Lemma find_none_directives s pos :
  FindStringIndex matchNextFormatSpecifier s = None -> directives s pos = [].
Proof.
  revert pos. induction s as [|c s IH]; intros pos H.
  - reflexivity.
  - cbn [FindStringIndex] in H. cbn [directives].
    destruct (match_here matchNextFormatSpecifier (c :: s)); [discriminate|].
    apply IH. destruct (FindStringIndex matchNextFormatSpecifier s) as [[a b]|];
      [discriminate|reflexivity].
Qed.

Lemma find_some_directives s pos a b :
  FindStringIndex matchNextFormatSpecifier s = Some (a, b) ->
  a + 2 <= b /\ b <= length s /\
  is_directive (firstn (b - a) (skipn a s)) = true /\
  directives s pos =
    (pos + a, firstn (b - a) (skipn a s)) :: directives (skipn b s) (pos + b).
Proof.
  revert pos a b. induction s as [|c s IH]; intros pos a b H.
  - discriminate.
  - cbn [FindStringIndex] in H. cbn [directives].
    destruct (match_here matchNextFormatSpecifier (c :: s)) as [n|] eqn:E.
    + injection H as <- <-.
      destruct (match_here_spec_inv _ _ E) as (fl & l & rest & Es & Hfl & Hl & ->).
      injection Es as -> ->.
      rewrite Nat.sub_0_r. cbn [skipn].
      replace (length fl + 2) with (S (length (fl ++ [l])))
        by (rewrite length_app; cbn; lia).
      cbn [firstn skipn].
      replace (fl ++ l :: rest) with ((fl ++ [l]) ++ rest)
        by (rewrite <- app_assoc; reflexivity).
      rewrite firstn_app, firstn_all, Nat.sub_diag.
      cbn [firstn]. rewrite app_nil_r.
      rewrite skipn_app, skipn_all, Nat.sub_diag. cbn [skipn app].
      rewrite directives_skip by (apply directive_tail_no_pct; assumption).
      assert (Hlen : length (fl ++ [l]) = length fl + 1)
        by (rewrite length_app; reflexivity).
      split; [|split; [|split]].
      * lia.
      * cbn [length]. rewrite !length_app. cbn [length]. lia.
      * apply directive_text; assumption.
      * f_equal; [f_equal; lia|]. f_equal. lia.
    + destruct (FindStringIndex matchNextFormatSpecifier s) as [[a' b']|] eqn:F;
        [|discriminate].
      injection H as <- <-.
      destruct (IH (S pos) a' b' eq_refl) as (H1 & H2 & H3 & H4).
      split; [|split; [|split]].
      * lia.
      * cbn [length]. lia.
      * exact H3.
      * rewrite H4. cbn [skipn]. f_equal; [f_equal; lia|]. f_equal. lia.
Qed.

(** ** The loop against the directives *)

Lemma update_length o j c : j < length o -> length (update o j c) = length o.
Proof.
  intros H. unfold update. rewrite length_app. cbn [length].
  rewrite length_firstn, length_skipn. lia.
Qed.

Lemma put_d_update o offset :
  1 <= offset -> offset <= length o ->
  put_d o offset = Some (update o (offset - 1) "d").
Proof.
  intros H1 H2. unfold put_d. destruct offset as [|k]; [lia|].
  unfold slice_to, slice_from.
  destruct (Nat.leb_spec k (length o)); [|lia].
  destruct (Nat.leb_spec (S k) (length o)); [|lia].
  unfold update. replace (S k - 1) with k by lia. reflexivity.
Qed.

Lemma rewrite_step_length o d :
  1 <= d_end d <= length o -> length (rewrite_step o d) = length o.
Proof.
  intros H. unfold rewrite_step.
  destruct (rule_rewrites _); [|reflexivity]. apply update_length. lia.
Qed.

Lemma UReplaceN_loop_directives g fuel : forall i o u offset,
  offset <= length i -> length o = length i -> length i - offset < fuel ->
  UReplaceN_loop g fuel i o u offset =
  Some (fold_left rewrite_step (directives (skipn offset i) offset) o,
        u ++ kinds_of (Unsigned g) (directives (skipn offset i) offset)).
Proof.
  induction fuel as [|fuel IH]; intros i o u offset Hoff Hlen Hfuel; [lia|].
  cbn [UReplaceN_loop]. unfold slice_from.
  destruct (Nat.leb_spec offset (length i)); [|lia].
  destruct (FindStringIndex matchNextFormatSpecifier (skipn offset i))
    as [[a b]|] eqn:F.
  - destruct (find_some_directives _ offset _ _ F) as (Hab & Hb & Hfm & Hds).
    rewrite length_skipn in Hb.
    rewrite Hds. unfold slice. rewrite length_skipn.
    destruct (Nat.leb_spec a b); [|lia].
    destruct (Nat.leb_spec b (length i - offset)); [|lia].
    cbn [andb]. cbv zeta.
    set (fm := firstn (b - a) (skipn a (skipn offset i))) in *.
    assert (Hend : d_end (offset + a, fm) = offset + b).
    { unfold d_end, fm. cbn [fst snd].
      rewrite length_firstn, !length_skipn. lia. }
    destruct (found_rules fm Hfm) as (-> & -> & -> & -> & -> & ->).
    cbn [fold_left kinds_of map]. fold (kinds_of (Unsigned g)).
    unfold rewrite_step at 2. rewrite Hend. cbn [snd].
    rewrite skipn_skipn, (Nat.add_comm b offset).
    unfold spec_rule.
    assert (Hnext : forall o' k, length o' = length i ->
      UReplaceN_loop g fuel i o' (u ++ [k]) (offset + b) =
      Some (fold_left rewrite_step
              (directives (skipn (offset + b) i) (offset + b)) o',
            u ++ k :: kinds_of (Unsigned g)
              (directives (skipn (offset + b) i) (offset + b)))).
    { intros o' k Ho'. rewrite IH by lia.
      rewrite <- app_assoc. reflexivity. }
    assert (Hput : put_d o (offset + b) = Some (update o (offset + b - 1) "d"))
      by (apply put_d_update; lia).
    assert (Hup : length (update o (offset + b - 1) "d") = length i)
      by (rewrite update_length; lia).
    destruct (is_pointer fm); [apply Hnext; assumption|].
    destruct (is_bool fm); [apply Hnext; assumption|].
    destruct (is_float fm); [apply Hnext; assumption|].
    destruct (is_unsigned_letter fm);
      [rewrite Hput; apply Hnext; assumption|].
    destruct (is_signed_letter fm);
      [rewrite Hput; apply Hnext; assumption|].
    destruct (is_hex_family fm); [|apply Hnext; assumption].
    cbn [rule_kind rule_rewrites].
    destruct (Unsigned g); apply Hnext; assumption.
  - rewrite (find_none_directives _ offset F). cbn. rewrite app_nil_r.
    reflexivity.
Qed.

(** ** Masking *)

Lemma gostring_ind2 (P : gostring -> Prop) :
  P [] -> (forall c, P [c]) ->
  (forall c1 c2 s, P s -> P (c2 :: s) -> P (c1 :: c2 :: s)) ->
  forall s, P s.
Proof.
  intros H0 H1 H2 s.
  enough (H : P s /\ forall c, P (c :: s)) by apply H.
  induction s as [|c s [IH1 IH2]].
  - split; [exact H0 | exact H1].
  - split; [apply IH2|]. intros c'. apply H2; [exact IH1 | apply IH2].
Qed.

Lemma ReplaceAll_pct_cons2 c1 c2 s :
  ReplaceAll_pct (c1 :: c2 :: s) =
  if Ascii.eqb c1 "%" && Ascii.eqb c2 "%"
  then "_" :: "_" :: ReplaceAll_pct s
  else c1 :: ReplaceAll_pct (c2 :: s).
Proof. reflexivity. Qed.

Lemma ReplaceAll_pct_length s : length (ReplaceAll_pct s) = length s.
Proof.
  induction s as [|c|c1 c2 s IH1 IH2] using gostring_ind2; try reflexivity.
  rewrite ReplaceAll_pct_cons2. destruct (_ && _); cbn [length] in *; lia.
Qed.

(** Masking changes percent signs only, and only into underscores. *)
Lemma ReplaceAll_pct_nth s : forall j,
  nth_error (ReplaceAll_pct s) j = nth_error s j \/
  (nth_error (ReplaceAll_pct s) j = Some "_" /\ nth_error s j = Some "%").
Proof.
  induction s as [|c|c1 c2 s IH1 IH2] using gostring_ind2; intros j;
    try (left; reflexivity).
  rewrite ReplaceAll_pct_cons2.
  destruct (Ascii.eqb c1 "%") eqn:E1; cbn [andb].
  - destruct (Ascii.eqb c2 "%") eqn:E2.
    + apply Ascii.eqb_eq in E1, E2. subst c1 c2.
      destruct j as [|[|j]]; cbn [nth_error]; auto.
    + destruct j as [|j]; cbn [nth_error]; [auto | apply IH2].
  - destruct j as [|j]; cbn [nth_error]; [auto | apply IH2].
Qed.

Lemma ReplaceAll_pct_no_pct s : no_pct s = true -> ReplaceAll_pct s = s.
Proof.
  induction s as [|c|c1 c2 s IH1 IH2] using gostring_ind2; try reflexivity.
  intros H. cbn [no_pct forallb] in H. apply andb_prop in H as [H1 H].
  apply negb_true_iff in H1. unfold chr in H1.
  rewrite ReplaceAll_pct_cons2. rewrite Ascii.eqb_sym, H1. cbn [andb].
  f_equal. apply IH2. exact H.
Qed.

(** [UReplaceN] returns, and what it returns is the fold of the rules
    over the directives of the masked input. *)
Lemma UReplaceN_directives g i :
  UReplaceN g i =
  Some (fold_left rewrite_step (directives (ReplaceAll_pct i) 0) i,
        kinds_of (Unsigned g) (directives (ReplaceAll_pct i) 0)).
Proof.
  unfold UReplaceN.
  rewrite UReplaceN_loop_directives;
    rewrite ?ReplaceAll_pct_length; try lia.
  reflexivity.
Qed.

(** ** Where the directives lie *)

Lemma firstn_directive fl l rest :
  firstn (length fl + 2) ("%" :: fl ++ l :: rest) = "%" :: fl ++ [l].
Proof.
  replace (length fl + 2) with (S (length (fl ++ [l])))
    by (rewrite length_app; cbn; lia).
  cbn [firstn]. f_equal.
  replace (fl ++ l :: rest) with ((fl ++ [l]) ++ rest)
    by (rewrite <- app_assoc; reflexivity).
  rewrite firstn_app, firstn_all, Nat.sub_diag. cbn [firstn].
  apply app_nil_r.
Qed.

Lemma directives_in s : forall pos d,
  In d (directives s pos) ->
  exists pre fl l post,
    s = pre ++ snd d ++ post /\ fst d = pos + length pre /\
    snd d = "%" :: fl ++ [l] /\
    forallb spec_flag fl = true /\ spec_letter l = true.
Proof.
  induction s as [|c s IH]; intros pos d H.
  - destruct H.
  - cbn [directives] in H.
    assert (Hrest : In d (directives s (S pos)) ->
      exists pre fl l post,
        c :: s = pre ++ snd d ++ post /\ fst d = pos + length pre /\
        snd d = "%" :: fl ++ [l] /\
        forallb spec_flag fl = true /\ spec_letter l = true).
    { intros H'. destruct (IH _ _ H') as (pre & fl & l & post & E & Hp & R).
      exists (c :: pre), fl, l, post. split; [cbn; congruence|].
      split; [cbn [length]; lia | exact R]. }
    destruct (match_here matchNextFormatSpecifier (c :: s)) as [n|] eqn:E;
      [|auto].
    destruct H as [<-|H]; [|auto].
    destruct (match_here_spec_inv _ _ E) as (fl & l & rest & Es & Hfl & Hl & ->).
    rewrite Es, firstn_directive. cbn [fst snd].
    exists [], fl, l, rest. cbn [app length].
    rewrite <- app_assoc. cbn [app]. auto with arith.
Qed.

Lemma directive_bytes s d :
  In d (directives s 0) ->
  2 <= length (snd d) /\ d_end d <= length s /\
  forall t, t < length (snd d) ->
    nth_error s (fst d + t) = nth_error (snd d) t.
Proof.
  intros H.
  destruct (directives_in _ _ _ H) as (pre & fl & l & post & E & Hp & Hd & _).
  cbn [Nat.add] in Hp.
  assert (Hlen : length (snd d) = length fl + 2)
    by (rewrite Hd; cbn [length]; rewrite length_app; cbn [length]; lia).
  split; [lia|]. split.
  - unfold d_end. rewrite E, !length_app. lia.
  - intros t Ht. rewrite E, Hp.
    rewrite nth_error_app2 by lia.
    replace (length pre + t - length pre) with t by lia.
    apply nth_error_app1. exact Ht.
Qed.

Lemma shaped_last flag letter fm :
  shaped flag letter fm = true ->
  exists l, nth_error fm (length fm - 1) = Some l /\ letter l = true.
Proof.
  intros H. apply shaped_inv in H as (fl & l & -> & _ & Hl).
  exists l. split; [|exact Hl].
  cbn [length]. rewrite Nat.sub_succ, Nat.sub_0_r.
  cbn [nth_error]. rewrite length_app. cbn [length].
  replace (length fl + 1) with (S (length fl)) by lia.
  cbn [nth_error]. rewrite nth_error_app2, Nat.sub_diag by lia.
  reflexivity.
Qed.

(** Two shapes of one text agree on its letter. *)
Lemma shaped_same_letter f1 p1 f2 p2 fm :
  shaped f1 p1 fm = true -> shaped f2 p2 fm = true ->
  exists l, p1 l = true /\ p2 l = true.
Proof.
  intros H1 H2.
  apply shaped_inv in H1 as (fl1 & l1 & -> & _ & Hl1).
  apply shaped_inv in H2 as (fl2 & l2 & E & _ & Hl2).
  injection E as E. apply app_inj_tail in E as [_ ->].
  exists l2. auto.
Qed.

Lemma shaped_exclusive f1 p1 f2 p2 fm :
  disjoint p1 p2 -> shaped f1 p1 fm = true -> shaped f2 p2 fm = false.
Proof.
  intros D H1. destruct (shaped f2 p2 fm) eqn:H2; [|reflexivity].
  destruct (shaped_same_letter _ _ _ _ _ H1 H2) as (l & Hl1 & Hl2).
  rewrite (D l Hl1) in Hl2. discriminate.
Qed.

Lemma u_not_p : disjoint (chr "u") (chr "p").
Proof. intros c. ascii_cases c. Qed.
Lemma u_not_t : disjoint (chr "u") (chr "t").
Proof. intros c. ascii_cases c. Qed.
Lemma u_not_f : disjoint (chr "u") (one_of "eEfFgG").
Proof. intros c. ascii_cases c. Qed.
Lemma i_not_p : disjoint (chr "i") (chr "p").
Proof. intros c. ascii_cases c. Qed.
Lemma i_not_t : disjoint (chr "i") (chr "t").
Proof. intros c. ascii_cases c. Qed.
Lemma i_not_f : disjoint (chr "i") (one_of "eEfFgG").
Proof. intros c. ascii_cases c. Qed.
Lemma i_not_u : disjoint (chr "i") (chr "u").
Proof. intros c. ascii_cases c. Qed.
Lemma hex_not_f : disjoint (one_of "loOxXbpt") (one_of "eEfFgG").
Proof. intros c. ascii_cases c. Qed.
Lemma hex_not_u : disjoint (one_of "loOxXbpt") (chr "u").
Proof. intros c. ascii_cases c. Qed.
Lemma hex_not_i : disjoint (one_of "loOxXbpt") (chr "i").
Proof. intros c. ascii_cases c. Qed.

Lemma spec_rule_unsigned_letter fm :
  is_unsigned_letter fm = true -> spec_rule fm = RUnsignedLetter.
Proof.
  intros H. unfold spec_rule, is_pointer, is_bool, is_float, is_unsigned_letter,
    is_signed_letter, is_hex_family in *.
  rewrite (shaped_exclusive _ _ no_flag _ fm u_not_p H).
  rewrite (shaped_exclusive _ _ no_flag _ fm u_not_t H).
  rewrite (shaped_exclusive _ _ f_flag _ fm u_not_f H).
  rewrite H. reflexivity.
Qed.

Lemma spec_rule_signed_letter fm :
  is_signed_letter fm = true -> spec_rule fm = RSignedLetter.
Proof.
  intros H. unfold spec_rule, is_pointer, is_bool, is_float, is_unsigned_letter,
    is_signed_letter, is_hex_family in *.
  rewrite (shaped_exclusive _ _ no_flag _ fm i_not_p H).
  rewrite (shaped_exclusive _ _ no_flag _ fm i_not_t H).
  rewrite (shaped_exclusive _ _ f_flag _ fm i_not_f H).
  rewrite (shaped_exclusive _ _ digit _ fm i_not_u H).
  rewrite H. reflexivity.
Qed.

Lemma spec_rule_hex_family fm :
  is_hex_family fm = true -> is_pointer fm = false -> is_bool fm = false ->
  spec_rule fm = RHexFamily.
Proof.
  intros H Hp Hb. unfold spec_rule, is_pointer, is_bool, is_float, is_unsigned_letter,
    is_signed_letter, is_hex_family in *.
  rewrite Hp, Hb.
  rewrite (shaped_exclusive _ _ f_flag _ fm hex_not_f H).
  rewrite (shaped_exclusive _ _ digit _ fm hex_not_u H).
  rewrite (shaped_exclusive _ _ digit _ fm hex_not_i H).
  rewrite H. reflexivity.
Qed.

Lemma rule_rewrites_inv fm :
  rule_rewrites (spec_rule fm) = true ->
  is_unsigned_letter fm = true \/ is_signed_letter fm = true.
Proof.
  unfold spec_rule.
  destruct (is_pointer fm); [discriminate|].
  destruct (is_bool fm); [discriminate|].
  destruct (is_float fm); [discriminate|].
  destruct (is_unsigned_letter fm); [auto|].
  destruct (is_signed_letter fm); [auto|].
  destruct (is_hex_family fm); discriminate.
Qed.

(** ** The rewritten string, byte by byte *)

Lemma update_nth o j' c j :
  j' < length o ->
  nth_error (update o j' c) j = if j' =? j then Some c else nth_error o j.
Proof.
  intros H. unfold update.
  assert (Hf : length (firstn j' o) = j') by (rewrite length_firstn; lia).
  destruct (Nat.eqb_spec j' j) as [->|Hne].
  - rewrite nth_error_app2, Hf, Nat.sub_diag by lia. reflexivity.
  - destruct (Nat.lt_ge_cases j j') as [Hlt|Hge].
    + rewrite nth_error_app1 by lia. rewrite nth_error_firstn.
      destruct (Nat.ltb_spec j j'); [reflexivity | lia].
    + rewrite nth_error_app2, Hf by lia.
      replace (j - j') with (S (j - j' - 1)) by lia.
      cbn [nth_error]. rewrite nth_error_skipn. f_equal. lia.
Qed.

Lemma fold_rewrite_nth ds : forall o j,
  (forall d, In d ds -> 1 <= d_end d <= length o) ->
  nth_error (fold_left rewrite_step ds o) j =
  if rewritten_at ds j then Some "d" else nth_error o j.
Proof.
  induction ds as [|d ds IH]; intros o j H.
  - reflexivity.
  - cbn [fold_left rewritten_at existsb].
    fold (rewritten_at ds j).
    assert (Hd : 1 <= d_end d <= length o) by (apply H; left; reflexivity).
    rewrite IH.
    + unfold rewrite_step.
      destruct (rule_rewrites (spec_rule (snd d))); cbn [andb orb].
      * rewrite update_nth by lia.
        destruct (d_end d - 1 =? j), (rewritten_at ds j); reflexivity.
      * reflexivity.
    + intros d' Hd'. rewrite rewrite_step_length by exact Hd.
      apply H. right. exact Hd'.
Qed.

Lemma fold_rewrite_length ds : forall o,
  (forall d, In d ds -> 1 <= d_end d <= length o) ->
  length (fold_left rewrite_step ds o) = length o.
Proof.
  induction ds as [|d ds IH]; intros o H; [reflexivity|].
  cbn [fold_left].
  assert (Hd : 1 <= d_end d <= length o) by (apply H; left; reflexivity).
  rewrite IH; [apply rewrite_step_length; exact Hd|].
  intros d' Hd'. rewrite rewrite_step_length by exact Hd.
  apply H. right. exact Hd'.
Qed.

Lemma rewritten_at_true ds j :
  rewritten_at ds j = true ->
  exists d, In d ds /\ rule_rewrites (spec_rule (snd d)) = true /\
            d_end d - 1 = j.
Proof.
  unfold rewritten_at. intros H.
  apply existsb_exists in H as (d & Hin & H).
  apply andb_prop in H as [H1 H2]. apply Nat.eqb_eq in H2. eauto.
Qed.

Lemma rewritten_at_intro ds d :
  In d ds -> rule_rewrites (spec_rule (snd d)) = true ->
  rewritten_at ds (d_end d - 1) = true.
Proof.
  intros Hin H. unfold rewritten_at. apply existsb_exists.
  exists d. rewrite H, Nat.eqb_refl. auto.
Qed.

Section OneInput.
Variable i : gostring.
Let im := ReplaceAll_pct i.
Let ds := directives im 0.
Let o := fold_left rewrite_step ds i.

Lemma ds_bounds d : In d ds -> 1 <= d_end d <= length i.
Proof.
  intros H. destruct (directive_bytes _ _ H) as (H2 & He & _).
  unfold im in He. rewrite ReplaceAll_pct_length in He.
  unfold d_end in *. lia.
Qed.

Lemma o_nth j :
  nth_error o j = if rewritten_at ds j then Some "d" else nth_error i j.
Proof. apply fold_rewrite_nth. exact ds_bounds. Qed.

Lemma o_length : length o = length i.
Proof. apply fold_rewrite_length. exact ds_bounds. Qed.

(** The masked and the plain input agree wherever the masked one holds
    something else than an underscore. *)
Lemma masked_byte j c :
  nth_error im j = Some c -> c <> "_" -> nth_error i j = Some c.
Proof.
  intros H Hc. destruct (ReplaceAll_pct_nth i j) as [E|[E _]];
    fold im in E; congruence.
Qed.

Lemma directive_letter d :
  In d ds ->
  exists l, spec_letter l = true /\
    nth_error (snd d) (length (snd d) - 1) = Some l /\
    nth_error im (d_end d - 1) = Some l /\
    nth_error i (d_end d - 1) = Some l.
Proof.
  intros H.
  destruct (directive_bytes _ _ H) as (H2 & _ & Hb).
  destruct (directives_in _ _ _ H) as (_ & fl & l & _ & _ & _ & Hd & Hfl & Hl).
  pose proof (directive_text fl l Hfl Hl) as Hs. rewrite <- Hd in Hs.
  destruct (shaped_last _ _ _ Hs) as (l' & Hn & Hl').
  assert (Him : nth_error im (d_end d - 1) = Some l').
  { unfold d_end.
    replace (fst d + length (snd d) - 1)
      with (fst d + (length (snd d) - 1)) by lia.
    rewrite Hb by lia. exact Hn. }
  exists l'. repeat split; auto.
  apply masked_byte; [exact Him|].
  intros ->. discriminate Hl'.
Qed.

(** The letter of a rewriting directive is [u] or [i], in the input too. *)
Lemma rewritten_letter j :
  rewritten_at ds j = true ->
  (nth_error im j = Some "u" /\ nth_error i j = Some "u") \/
  (nth_error im j = Some "i" /\ nth_error i j = Some "i").
Proof.
  intros H. destruct (rewritten_at_true _ _ H) as (d & Hin & Hr & <-).
  destruct (directive_letter d Hin) as (l & _ & Hn & Him & Hi).
  destruct (rule_rewrites_inv _ Hr) as [Hu|Hs].
  - destruct (shaped_last _ _ _ Hu) as (l' & Hn' & Hl').
    apply chr_eq in Hl'. left. split; congruence.
  - destruct (shaped_last _ _ _ Hs) as (l' & Hn' & Hl').
    apply chr_eq in Hl'. right. split; congruence.
Qed.

Lemma unchanged_byte j :
  nth_error im j <> Some "u" -> nth_error im j <> Some "i" ->
  nth_error o j = nth_error i j.
Proof.
  intros Hu Hi. rewrite o_nth.
  destruct (rewritten_at ds j) eqn:E; [|reflexivity].
  destruct (rewritten_letter j E) as [[H _]|[H _]]; contradiction.
Qed.
End OneInput.

Lemma shaped_bytes flag letter fm t c :
  shaped flag letter fm = true -> nth_error fm t = Some c ->
  (t = 0 /\ c = "%") \/
  (0 < t < length fm - 1 /\ flag c = true) \/
  (t = length fm - 1 /\ letter c = true).
Proof.
  intros H Hn. apply shaped_inv in H as (fl & l & -> & Hfl & Hl).
  cbn [length]. rewrite length_app. cbn [length].
  destruct t as [|t]; cbn [nth_error] in Hn.
  - left. split; congruence.
  - right. destruct (Nat.lt_ge_cases t (length fl)) as [Hlt|Hge].
    + left. rewrite nth_error_app1 in Hn by exact Hlt.
      split; [lia|]. apply nth_error_In in Hn.
      rewrite forallb_forall in Hfl. auto.
    + right. rewrite nth_error_app2 in Hn by exact Hge.
      destruct (t - length fl) as [|m] eqn:Em; cbn [nth_error] in Hn.
      * injection Hn as <-. split; [lia | exact Hl].
      * destruct m; discriminate.
Qed.

Lemma flag_not_underscore : disjoint spec_flag (chr "_").
Proof. intros c. ascii_cases c. Qed.

Lemma letter_not_underscore : disjoint spec_letter (chr "_").
Proof. intros c. ascii_cases c. Qed.

(** The text of a directive stands in the input itself, not only in the
    masked copy. *)
Lemma input_directive_bytes i d t :
  In d (directives (ReplaceAll_pct i) 0) -> t < length (snd d) ->
  nth_error (ReplaceAll_pct i) (fst d + t) = nth_error (snd d) t /\
  nth_error i (fst d + t) = nth_error (snd d) t.
Proof.
  intros H Ht.
  destruct (directive_bytes _ _ H) as (_ & _ & Hb).
  destruct (directives_in _ _ _ H) as (_ & fl & l & _ & _ & _ & Hd & Hfl & Hl).
  pose proof (directive_text fl l Hfl Hl) as Hs. rewrite <- Hd in Hs.
  specialize (Hb t Ht). split; [exact Hb|].
  destruct (nth_error (snd d) t) as [c|] eqn:En.
  - rewrite <- En in *. rewrite En in Hb. rewrite En.
    apply masked_byte; [exact Hb|].
    intros ->.
    destruct (shaped_bytes _ _ _ _ _ Hs En) as [[_ E]|[[_ E]|[_ E]]];
      discriminate E.
  - apply nth_error_None in En. lia.
Qed.

Lemma kinds_of_nth b ds k d :
  nth_error ds k = Some d ->
  nth_error (kinds_of b ds) k = Some (code (rule_kind b (spec_rule (snd d)))).
Proof.
  intros H. unfold kinds_of. rewrite nth_error_map, H. reflexivity.
Qed.

(** Every place of the masked string at which a percent sign, flags and
    a conversion letter stand is a directive. *)
Lemma directives_complete pre fl l post : forall pos,
  forallb spec_flag fl = true -> spec_letter l = true ->
  In (pos + length pre, "%" :: fl ++ [l])
     (directives (pre ++ "%" :: fl ++ l :: post) pos).
Proof.
  induction pre as [|c pre IH]; intros pos Hfl Hl.
  - cbn [app length directives].
    rewrite (match_here_spec_intro fl l post Hfl Hl), firstn_directive.
    left. f_equal. lia.
  - cbn [app length directives].
    specialize (IH (S pos) Hfl Hl).
    replace (pos + S (length pre)) with (S pos + length pre) by lia.
    destruct (match_here matchNextFormatSpecifier _); [right|]; exact IH.
Qed.

Lemma digit_is_flag c : digit c = true -> spec_flag c = true.
Proof. ascii_cases c. Qed.

Lemma digits_are_flags ds : forallb digit ds = true -> forallb spec_flag ds = true.
Proof.
  induction ds as [|c ds IH]; cbn [forallb]; [reflexivity|].
  intros H. apply andb_prop in H as [Hc H].
  rewrite (digit_is_flag c Hc), IH by exact H. reflexivity.
Qed.

Lemma hex_is_letter c : one_of "loOxXbpt" c = true -> spec_letter c = true.
Proof. ascii_cases c. Qed.

(** The directive number [k], when it is a percent sign, decimal digits
    and [u]. *)
Lemma unsigned_letter_directive g i k p fm :
  nth_error (directives (ReplaceAll_pct i) 0) k = Some (p, fm) ->
  is_unsigned_letter fm = true ->
  exists o u,
    UReplaceN g i = Some (o, u) /\
    nth_error u k = Some 0%Z /\
    nth_error i (p + length fm - 1) = Some "u" /\
    nth_error o (p + length fm - 1) = Some "d" /\
    (forall t, t < length fm - 1 ->
       nth_error o (p + t) = nth_error fm t /\
       nth_error i (p + t) = nth_error fm t) /\
    length o = length i /\
    (forall j, rewritten_at (directives (ReplaceAll_pct i) 0) j = false ->
       nth_error o j = nth_error i j).
Proof.
  intros Hk Hu. rewrite UReplaceN_directives.
  eexists _, _. split; [reflexivity|].
  pose proof (nth_error_In _ _ Hk) as Hin.
  pose proof (spec_rule_unsigned_letter _ Hu) as Hr.
  destruct (shaped_last _ _ _ Hu) as (l & Hl & El). apply chr_eq in El. subst l.
  destruct (directive_bytes _ _ Hin) as (H2 & _ & _). cbn [fst snd] in H2.
  assert (Hat : rewritten_at (directives (ReplaceAll_pct i) 0)
                  (p + length fm - 1) = true).
  { apply (rewritten_at_intro _ (p, fm)); [exact Hin|].
    cbn [snd]. rewrite Hr. reflexivity. }
  split; [|split; [|split; [|split; [|split]]]].
  - rewrite (kinds_of_nth _ _ _ _ Hk). cbn [snd]. rewrite Hr. reflexivity.
  - replace (p + length fm - 1) with (p + (length fm - 1)) by lia.
    destruct (input_directive_bytes i (p, fm) (length fm - 1) Hin) as [_ E];
      [cbn [snd]; lia|].
    cbn [fst snd] in E. congruence.
  - rewrite o_nth, Hat. reflexivity.
  - intros t Ht.
    destruct (input_directive_bytes i (p, fm) t Hin) as [Em Ei];
      [cbn [snd]; lia|].
    cbn [fst snd] in Em, Ei. split; [|exact Ei].
    rewrite <- Ei. apply unchanged_byte; rewrite Em; intros En;
      destruct (shaped_bytes _ _ _ _ _ Hu En) as [[_ E]|[[_ E]|[E _]]];
      try discriminate E; lia.
  - apply o_length.
  - intros j Hj. rewrite o_nth, Hj. reflexivity.
Qed.

(** The directive number [k], when it has the hex-family shape and is
    neither [%p] nor [%t]. *)
Lemma hex_family_directive g i k p fm :
  nth_error (directives (ReplaceAll_pct i) 0) k = Some (p, fm) ->
  is_hex_family fm = true -> is_pointer fm = false -> is_bool fm = false ->
  exists o u,
    UReplaceN g i = Some (o, u) /\
    nth_error u k = Some (if Unsigned g then 0%Z else 1%Z) /\
    (forall t, t < length fm ->
       nth_error o (p + t) = nth_error fm t /\
       nth_error i (p + t) = nth_error fm t).
Proof.
  intros Hk Hx Hp Hb. rewrite UReplaceN_directives.
  eexists _, _. split; [reflexivity|].
  pose proof (nth_error_In _ _ Hk) as Hin.
  pose proof (spec_rule_hex_family _ Hx Hp Hb) as Hr.
  split.
  - rewrite (kinds_of_nth _ _ _ _ Hk). cbn [snd]. rewrite Hr.
    cbn [rule_kind]. destruct (Unsigned g); reflexivity.
  - intros t Ht.
    destruct (input_directive_bytes i (p, fm) t Hin) as [Em Ei];
      [exact Ht|].
    cbn [fst snd] in Em, Ei. split; [|exact Ei].
    rewrite <- Ei. apply unchanged_byte; rewrite Em; intros En;
      destruct (shaped_bytes _ _ _ _ _ Hx En) as [[_ E]|[[_ E]|[_ E]]];
      discriminate E.
Qed.

(** * The claims *)





(** C2, as stated, fails: under [Unsigned = true] the directive [%#x] has
    the conversion letter [x], none of the earlier tests finds anything
    in it, and it is reported signed (code 1). *)
Lemma C2_flagged_hex_is_signed :
  let fm := str "%#x" in
  Unsigned (globals true) = true /\
  directives (ReplaceAll_pct fm) 0 = [(0, fm)] /\
  nth_error fm 2 = Some "x" /\
  found matchNextFormatPointerSpecifier fm = false /\
  found matchNextFormatBoolSpecifier fm = false /\
  found matchNextFormatFSpecifier fm = false /\
  found matchNextFormatUSpecifier fm = false /\
  found matchNextFormatISpecifier fm = false /\
  UReplaceN (globals true) fm = Some (fm, [1%Z]).
Proof. vm_compute. repeat split. Qed.



(** C2, amended. Wherever the scanned string holds a percent sign,
    decimal digits only and one of the letters [l o O x X b p t], and
    this is not [%p] or [%t] itself, this is one of the directives, say
    number [k]; kind [k] is unsigned (0) when [Unsigned] is set and
    signed (1) when it is not; the text stands in the input and stands
    unchanged in the returned string. *)
Theorem C2_hex_family g i pre ds l post :
  ReplaceAll_pct i = pre ++ "%" :: ds ++ l :: post ->
  forallb digit ds = true ->
  one_of "loOxXbpt" l = true ->
  ds <> [] \/ (l <> "p" /\ l <> "t") ->
  exists o u k,
    UReplaceN g i = Some (o, u) /\
    nth_error (directives (ReplaceAll_pct i) 0) k
      = Some (length pre, "%" :: ds ++ [l]) /\
    nth_error u k = Some (if Unsigned g then 0%Z else 1%Z) /\
    (forall t, t < length ds + 2 ->
       nth_error o (length pre + t) = nth_error ("%" :: ds ++ [l]) t /\
       nth_error i (length pre + t) = nth_error ("%" :: ds ++ [l]) t).
Proof.
  intros E Hds Hl Hnot.
  pose proof (digits_are_flags ds Hds) as Hfl.
  pose proof (directives_complete pre ds l post 0 Hfl (hex_is_letter l Hl))
    as Hin.
  rewrite <- E in Hin. cbn [Nat.add] in Hin.
  destruct (In_nth_error _ _ Hin) as (k & Hk).
  assert (Hx : is_hex_family ("%" :: ds ++ [l]) = true).
  { unfold is_hex_family. rewrite shaped_app, Hds, Hl. reflexivity. }
  assert (Hpt : is_pointer ("%" :: ds ++ [l]) = false /\
                is_bool ("%" :: ds ++ [l]) = false).
  { unfold is_pointer, is_bool. rewrite !shaped_app.
    destruct Hnot as [Hne|[Hp Ht]].
    - destruct ds as [|c ds]; [contradiction|]. split; reflexivity.
    - split; apply andb_false_intro2.
      + destruct (chr "p" l) eqn:C; [apply chr_eq in C; contradiction|].
        reflexivity.
      + destruct (chr "t" l) eqn:C; [apply chr_eq in C; contradiction|].
        reflexivity. }
  destruct Hpt as [Hp Hb].
  assert (Hlen : length ("%" :: ds ++ [l]) = length ds + 2)
    by (cbn [length]; rewrite length_app; cbn [length]; lia).
  destruct (hex_family_directive g i k _ _ Hk Hx Hp Hb)
    as (o & u & H1 & H2 & H3).
  rewrite Hlen in H3.
  exists o, u, k. auto.
Qed.

Lemma C2_hex_family_witness :
  exists o u,
    UReplaceN (globals true) (str "a=%08x") = Some (o, u) /\
    nth_error u 0 = Some 0%Z /\
    nth_error o 2 = Some "%" /\ nth_error o 5 = Some "x".
Proof.
  destruct (C2_hex_family (globals true) (str "a=%08x")
              (str "a=") (str "08") "x" [])
    as (o & u & k & H1 & Hk & H2 & H3).
  - reflexivity.
  - reflexivity.
  - reflexivity.
  - left. discriminate.
  - exists o, u. split; [exact H1|].
    split; [destruct k as [|[|k]]; [exact H2 | discriminate Hk ..]|].
    split; [apply (H3 0) | apply (H3 3)]; cbn; lia.
Defined.

(** C3, as stated, fails: with [Unsigned] not set the kinds of
    ["val=%d hex=%x"] are [[1, 1]]. *)
Lemma C3_hex_signed_by_default :
  Unsigned (globals false) = false /\
  UReplaceN (globals false) (str "val=%d hex=%x")
  = Some (str "val=%d hex=%x", [1%Z; 1%Z]).
Proof. vm_compute. split; reflexivity. Qed.

(** C3, amended. For ["val=%d hex=%x"] the string comes back unchanged;
    the kinds are [[1, 0]] when [Unsigned] is set and [[1, 1]] when it
    is not. *)
Theorem C3_val_hex g :
  UReplaceN g (str "val=%d hex=%x")
  = Some (str "val=%d hex=%x", [1%Z; if Unsigned g then 0%Z else 1%Z]).
Proof.
  rewrite UReplaceN_directives.
  destruct (Unsigned g); vm_compute; reflexivity.
Qed.

(** C4, as stated, fails when the precedence is read by conversion
    letter: [%5p] ends in the pointer letter and is reported as a member
    of the hex family (0 with [Unsigned] set, 1 without), never as a
    pointer (4); [%5t] likewise is no bool (3); [%-5u] ends in [u], is
    reported signed (1) and keeps its [u]; [%'f] ends in a float letter
    and is reported signed (1). *)
Lemma C4_letter_alone_does_not_decide :
  nth_error (str "%5p") 2 = Some "p" /\
  UReplaceN (globals true) (str "%5p") = Some (str "%5p", [0%Z]) /\
  UReplaceN (globals false) (str "%5p") = Some (str "%5p", [1%Z]) /\
  UReplaceN (globals true) (str "%5t") = Some (str "%5t", [0%Z]) /\
  UReplaceN (globals true) (str "%-5u") = Some (str "%-5u", [1%Z]) /\
  UReplaceN (globals true) (str "%'f") = Some (str "%'f", [1%Z]).
Proof. vm_compute. repeat split. Qed.

(** C4, amended. The kind of every directive is fixed by the rules in
    their order, each rule being the whole shape the code tests and not
    the conversion letter alone: pointer is [%p] itself, bool is [%t]
    itself, float is a letter of [e E f F g G] after flags among
    [( + - . #] and digits, the unsigned letter is [u] after decimal
    digits only, the signed letter is [i] after decimal digits only,
    the hex family is a letter of [l o O x X b p t] after decimal digits
    only, and whatever is left is signed.  The order matters: [%p] and
    [%t] have the shape of the hex family too and are pointer and bool.
    For ["flag=%t ptr=%p"] the kinds are [[3, 4]] and the string is
    unchanged. *)
Theorem C4_precedence :
  (forall g i, exists o,
     UReplaceN g i =
     Some (o, map (fun d => code (rule_kind (Unsigned g) (spec_rule (snd d))))
                (directives (ReplaceAll_pct i) 0))) /\
  (is_hex_family (str "%p") = true /\ spec_rule (str "%p") = RPointer) /\
  (is_hex_family (str "%t") = true /\ spec_rule (str "%t") = RBool) /\
  (forall g, UReplaceN g (str "flag=%t ptr=%p")
             = Some (str "flag=%t ptr=%p", [3%Z; 4%Z])).
Proof.
  split; [|split; [|split]].
  - intros g i. rewrite UReplaceN_directives. eexists. reflexivity.
  - split; reflexivity.
  - split; reflexivity.
  - intros g. rewrite UReplaceN_directives.
    destruct (Unsigned g); vm_compute; reflexivity.
Qed.

(** C5. A format string without any percent sign comes back unchanged,
    with an empty kind sequence. *)
Theorem C5_literal_text g i :
  no_pct i = true -> UReplaceN g i = Some (i, []).
Proof.
  intros H. rewrite UReplaceN_directives.
  rewrite (ReplaceAll_pct_no_pct i H).
  assert (Hd : directives i 0 = []).
  { rewrite <- (app_nil_r i) at 1. rewrite directives_skip by exact H.
    reflexivity. }
  rewrite Hd. reflexivity.
Qed.

Lemma C5_literal_text_witness :
  UReplaceN (globals true) (str "no directive here") = Some (str "no directive here", []).
Proof. apply C5_literal_text. reflexivity. Defined.

Lemma literal_or_escapes_cons2 c1 c2 s :
  literal_or_escapes (c1 :: c2 :: s) =
  if Ascii.eqb c1 "%"
  then Ascii.eqb c2 "%" && literal_or_escapes s
  else literal_or_escapes (c2 :: s).
Proof. reflexivity. Qed.

Lemma masked_escapes_no_pct s :
  literal_or_escapes s = true -> no_pct (ReplaceAll_pct s) = true.
Proof.
  induction s as [|c|c1 c2 s IH1 IH2] using gostring_ind2.
  - reflexivity.
  - cbn. unfold chr. rewrite (Ascii.eqb_sym "%" c).
    destruct (Ascii.eqb c "%"); [discriminate | reflexivity].
  - rewrite literal_or_escapes_cons2, ReplaceAll_pct_cons2.
    destruct (Ascii.eqb c1 "%") eqn:E1; cbn [andb].
    + intros H. apply andb_prop in H as [E2 H]. rewrite E2.
      cbn [no_pct forallb]. apply IH1 in H. exact H.
    + intros H. cbn [no_pct forallb]. unfold chr.
      rewrite (Ascii.eqb_sym "%" c1), E1. cbn [negb andb].
      apply IH2. exact H.
Qed.

(** C6. No directive holds a byte that masking has changed, that is, a
    byte of a replaced [%%] pair, so no entry of the kind sequence comes
    from an escape.  A string made of literal text and [%%] escapes only
    is scanned with no percent sign left in the masked copy; it comes
    back unchanged, with an empty kind sequence. *)
Theorem C6_escapes g i :
  (forall d t, In d (directives (ReplaceAll_pct i) 0) ->
     t < length (snd d) ->
     nth_error (ReplaceAll_pct i) (fst d + t) = nth_error i (fst d + t)) /\
  (exists o u, UReplaceN g i = Some (o, u) /\
     length u = length (directives (ReplaceAll_pct i) 0)) /\
  (literal_or_escapes i = true ->
   no_pct (ReplaceAll_pct i) = true /\ UReplaceN g i = Some (i, [])).
Proof.
  split; [|split].
  - intros d t Hin Ht.
    destruct (input_directive_bytes i d t Hin Ht) as [Em Ei]. congruence.
  - rewrite UReplaceN_directives. eexists _, _. split; [reflexivity|].
    unfold kinds_of. apply length_map.
  - intros H. pose proof (masked_escapes_no_pct i H) as Hm.
    split; [exact Hm|].
    rewrite UReplaceN_directives.
    assert (Hd : directives (ReplaceAll_pct i) 0 = []).
    { rewrite <- (app_nil_r (ReplaceAll_pct i)).
      rewrite directives_skip by exact Hm. reflexivity. }
    rewrite Hd. reflexivity.
Qed.

Lemma C6_escapes_witness :
  UReplaceN (globals true) (str "100%% of %%d") = Some (str "100%% of %%d", []).
Proof.
  apply (proj2 (proj2 (C6_escapes (globals true) (str "100%% of %%d")))).
  reflexivity.
Defined.

(** C8, as stated, fails: the kinds of ["%x"] follow the package
    variable [Unsigned], which is no part of the argument. *)
Lemma C8_result_follows_Unsigned :
  UReplaceN (globals true) (str "%x") = Some (str "%x", [0%Z]) /\
  UReplaceN (globals false) (str "%x") = Some (str "%x", [1%Z]) /\
  UReplaceN (globals true) (str "%x") <> UReplaceN (globals false) (str "%x").
Proof. vm_compute. repeat split; discriminate. Qed.

(** C8, amended. The result is a function of the format string and of
    the package variable [Unsigned] alone: under two package states
    with the same [Unsigned] the classifier returns, and returns the
    same string and the same kinds.  The returned string and the number
    of kinds do not depend on [Unsigned] either. *)
Theorem C8_function_of_input_and_switch g1 g2 i :
  Unsigned g1 = Unsigned g2 ->
  (exists r, UReplaceN g1 i = Some r /\ UReplaceN g2 i = Some r) /\
  (forall g, option_map fst (UReplaceN g i) = option_map fst (UReplaceN g1 i) /\
             option_map (fun r => length (snd r)) (UReplaceN g i) =
             option_map (fun r => length (snd r)) (UReplaceN g1 i)).
Proof.
  intros H. split.
  - rewrite !UReplaceN_directives, H. eexists. split; reflexivity.
  - intros g. rewrite !UReplaceN_directives. cbn [option_map fst snd].
    unfold kinds_of. rewrite !length_map. split; reflexivity.
Qed.

Lemma C8_function_of_input_and_switch_witness :
  exists r,
    UReplaceN (globals true) (str "%u %x") = Some r /\
    UReplaceN {| Verbose := true; ShowID := str "%04x"; TestTableMode := true;
                 Unsigned := true; DebugOut := true; DumpLineByteCount := 16;
                 InitialCycle := false |} (str "%u %x") = Some r.
Proof.
  apply (C8_function_of_input_and_switch (globals true)). reflexivity.
Defined.

(** C9. The returned string is as long as the input.  A byte of it
    differs from the byte of the input at the same index only at the
    conversion letter of a directive made of a percent sign, decimal
    digits and [u] or [i]: there the input has [u] or [i] and the
    returned string has [d]; every other byte, the [u] and [i] of the
    literal text among them, is the byte of the input. *)
Theorem C9_length_preserved g i :
  exists o u,
    UReplaceN g i = Some (o, u) /\
    length o = length i /\
    forall j,
      nth_error o j = nth_error i j \/
      (exists k p fm,
         nth_error (directives (ReplaceAll_pct i) 0) k = Some (p, fm) /\
         (is_unsigned_letter fm = true \/ is_signed_letter fm = true) /\
         j = p + length fm - 1 /\
         nth_error o j = Some "d" /\
         (nth_error i j = Some "u" \/ nth_error i j = Some "i")).
Proof.
  rewrite UReplaceN_directives. eexists _, _. split; [reflexivity|].
  split; [apply o_length|].
  intros j. rewrite o_nth.
  destruct (rewritten_at _ j) eqn:E; [|left; reflexivity].
  right.
  destruct (rewritten_at_true _ _ E) as ([p fm] & Hin & Hr & He).
  destruct (In_nth_error _ _ Hin) as (k & Hk).
  exists k, p, fm. split; [exact Hk|].
  split; [exact (rule_rewrites_inv _ Hr)|].
  split; [symmetry; exact He|].
  split; [reflexivity|].
  destruct (rewritten_letter i j E) as [[_ H]|[_ H]]; auto.
Qed.

(** C10. Where the input has [%s], no directive begins: no entry of the
    kind sequence comes from there (there are exactly as many kinds as
    directives, none of which is the text [%s] or ends in [s]), and the
    two bytes stand unchanged in the returned string. *)
Theorem C10_percent_s_not_matched g i j :
  nth_error i j = Some "%" -> nth_error i (S j) = Some "s" ->
  exists o u,
    UReplaceN g i = Some (o, u) /\
    length u = length (directives (ReplaceAll_pct i) 0) /\
    (forall d, In d (directives (ReplaceAll_pct i) 0) ->
       fst d <> j /\ snd d <> str "%s" /\
       nth_error (snd d) (length (snd d) - 1) <> Some "s") /\
    nth_error o j = Some "%" /\ nth_error o (S j) = Some "s".
Proof.
  intros Hp Hs. rewrite UReplaceN_directives.
  eexists _, _. split; [reflexivity|].
  split; [unfold kinds_of; apply length_map|].
  split; [|split].
  - intros d Hin.
    destruct (directive_letter i d Hin) as (l & Hl & Hn & _ & _).
    assert (Hlast : nth_error (snd d) (length (snd d) - 1) <> Some "s").
    { rewrite Hn. intros [= ->]. discriminate Hl. }
    split; [|split; [|exact Hlast]].
    + intros <-.
      destruct (directive_bytes _ _ Hin) as (H2 & _ & _).
      destruct (input_directive_bytes i d 1 Hin) as [_ Ei]; [lia|].
      rewrite Nat.add_1_r, Hs in Ei. symmetry in Ei.
      destruct (directives_in _ _ _ Hin)
        as (_ & fl & l' & _ & _ & _ & Hd & Hfl & Hl').
      pose proof (directive_text fl l' Hfl Hl') as Hsh. rewrite <- Hd in Hsh.
      destruct (shaped_bytes _ _ _ _ _ Hsh Ei) as [[E _]|[[_ E]|[_ E]]];
        discriminate E.
    + intros E. rewrite E in Hlast. apply Hlast. reflexivity.
  - rewrite <- Hp. apply unchanged_byte;
      destruct (ReplaceAll_pct_nth i j) as [E|[E _]]; congruence.
  - rewrite <- Hs. apply unchanged_byte;
      destruct (ReplaceAll_pct_nth i (S j)) as [E|[E _]]; congruence.
Qed.

Lemma C10_percent_s_not_matched_witness :
  exists o u,
    UReplaceN (globals false) (str "name=%s id=%d") = Some (o, u) /\
    length u = 1 /\
    nth_error o 5 = Some "%" /\ nth_error o 6 = Some "s".
Proof.
  destruct (C10_percent_s_not_matched (globals false) (str "name=%s id=%d") 5)
    as (o & u & H1 & H2 & _ & H4 & H5); try reflexivity.
  exists o, u. auto.
Defined.

(** ** Endian readers *)

Local Open Scope Z_scope.

Lemma byte_val_range x : 0 <= byte_val x < 256.
Proof.
  unfold byte_val. pose proof (Byte.to_N_bounded x). lia.
Qed.

Lemma land_low_high a x n :
  0 <= n -> 0 <= a < 2 ^ n -> Z.land a (x * 2 ^ n) = 0.
Proof.
  intros Hn Ha. apply Z.bits_inj'. intros m Hm.
  rewrite Z.land_spec, Z.bits_0.
  destruct (Z.lt_ge_cases m n) as [Hlt|Hge].
  - rewrite Z.mul_pow2_bits_low by lia. apply andb_false_r.
  - destruct (Z.eq_dec a 0) as [->|Hne].
    + rewrite Z.bits_0. reflexivity.
    + rewrite (Z.bits_above_log2 a m); [reflexivity | lia |].
      assert (Z.log2 a < n) by (apply Z.log2_lt_pow2; lia). lia.
Qed.

Lemma lor_shl w a x n :
  0 <= n -> n + 8 <= w -> 0 <= a < 2 ^ n -> 0 <= x < 256 ->
  Z.lor a (shl w x n) = a + x * 2 ^ n /\ 0 <= a + x * 2 ^ n < 2 ^ (n + 8).
Proof.
  intros Hn Hw Ha Hx.
  assert (Hp : 2 ^ (n + 8) = 2 ^ n * 256)
    by (rewrite Z.pow_add_r by lia; reflexivity).
  assert (H2n : 0 < 2 ^ n) by (apply Z.pow_pos_nonneg; lia).
  assert (Hb : 0 <= a + x * 2 ^ n < 2 ^ (n + 8)) by nia.
  split; [|exact Hb].
  unfold shl. rewrite Z.shiftl_mul_pow2 by lia.
  assert (Hle : 2 ^ (n + 8) <= 2 ^ w) by (apply Z.pow_le_mono_r; lia).
  rewrite Z.mod_small by nia.
  rewrite <- Z.lxor_lor by (apply land_low_high; lia).
  symmetry. apply Z.add_nocarry_lxor. apply land_low_high; lia.
Qed.

(** One [a | x << n] of an unsigned read, with [a] below [2 ^ n]. *)
Ltac lor_step :=
  match goal with
  | |- context [Z.lor ?a (shl ?w (byte_val ?x) ?n)] =>
      lazymatch a with
      | context [Z.lor] => fail
      | _ =>
          let Hb := fresh "Hb" in
          destruct (lor_shl w a (byte_val x) n) as [-> Hb];
          [lia | lia | lia | apply byte_val_range | ]
      end
  end.

Ltac read_value :=
  repeat match goal with
         | x : Byte.byte |- _ =>
             lazymatch goal with
             | _ : 0 <= byte_val x < 256 |- _ => fail
             | _ => pose proof (byte_val_range x)
             end
         end;
  repeat lor_step;
  f_equal;
  cbn [firstn little_endian big_endian fold_right fold_left];
  lia.

Lemma LittleEndian_Uint16_value b0 b1 r :
  LittleEndian.Uint16 (b0 :: b1 :: r) = Some (little_endian [b0; b1]).
Proof. unfold LittleEndian.Uint16. read_value. Qed.

Lemma BigEndian_Uint16_value b0 b1 r :
  BigEndian.Uint16 (b0 :: b1 :: r) = Some (big_endian [b0; b1]).
Proof. unfold BigEndian.Uint16. read_value. Qed.

Lemma LittleEndian_Uint32_value b0 b1 b2 b3 r :
  LittleEndian.Uint32 (b0 :: b1 :: b2 :: b3 :: r)
  = Some (little_endian [b0; b1; b2; b3]).
Proof. unfold LittleEndian.Uint32. read_value. Qed.

Lemma BigEndian_Uint32_value b0 b1 b2 b3 r :
  BigEndian.Uint32 (b0 :: b1 :: b2 :: b3 :: r)
  = Some (big_endian [b0; b1; b2; b3]).
Proof. unfold BigEndian.Uint32. read_value. Qed.

Lemma LittleEndian_Uint64_value b0 b1 b2 b3 b4 b5 b6 b7 r :
  LittleEndian.Uint64 (b0 :: b1 :: b2 :: b3 :: b4 :: b5 :: b6 :: b7 :: r)
  = Some (little_endian [b0; b1; b2; b3; b4; b5; b6; b7]).
Proof. unfold LittleEndian.Uint64. read_value. Qed.

Lemma BigEndian_Uint64_value b0 b1 b2 b3 b4 b5 b6 b7 r :
  BigEndian.Uint64 (b0 :: b1 :: b2 :: b3 :: b4 :: b5 :: b6 :: b7 :: r)
  = Some (big_endian [b0; b1; b2; b3; b4; b5; b6; b7]).
Proof. unfold BigEndian.Uint64. read_value. Qed.

(** C7. On a slice of at least 2, 4, 8 bytes, [ReadU16], [ReadU32],
    [ReadU64] return the unsigned integer its first 2, 4, 8 bytes
    encode, least significant byte first when [Endian] is true and most
    significant byte first when it is false; the value fits the width,
    and the receiver and the slice are as before the call. *)
Theorem C7_endian_readers {H} (w : width) (p : DecoderData H)
    (b : list Byte.byte) :
  (nbytes w <= length b)%nat ->
  ReadU w p b =
    Some {| value := decode (Endian p) (firstn (nbytes w) b);
            receiver := p; bytes := b |} /\
  0 <= decode (Endian p) (firstn (nbytes w) b) < 2 ^ (8 * Z.of_nat (nbytes w)).
Proof.
  intros Hlen.
  destruct w; cbn [nbytes ReadU] in *;
    unfold ReadU16, ReadU32, ReadU64, decode;
    repeat (destruct b as [|? b]; [cbn [length] in Hlen; lia|]);
    cbn [firstn];
    repeat match goal with
           | x : Byte.byte |- _ =>
               lazymatch goal with
               | _ : 0 <= byte_val x < 256 |- _ => fail
               | _ => pose proof (byte_val_range x)
               end
           end;
    destruct (Endian p);
    (split;
     [ rewrite ?LittleEndian_Uint16_value, ?BigEndian_Uint16_value,
         ?LittleEndian_Uint32_value, ?BigEndian_Uint32_value,
         ?LittleEndian_Uint64_value, ?BigEndian_Uint64_value;
       reflexivity
     | cbn [little_endian big_endian fold_right fold_left];
       first [ change (8 * Z.of_nat 2) with 16
             | change (8 * Z.of_nat 4) with 32
             | change (8 * Z.of_nat 8) with 64 ];
       lia ]).
Qed.

Lemma C7_endian_readers_witness :
  ReadU16 {| Handles := tt; IBuf := []; B := []; Endian := true;
             TriceSize := 0; ParamSpace := 0; SLen := 0 |}
          [Byte.x34; Byte.x12; Byte.xff]
  = Some {| value := 4660;
            receiver := {| Handles := tt; IBuf := []; B := []; Endian := true;
                           TriceSize := 0; ParamSpace := 0; SLen := 0 |};
            bytes := [Byte.x34; Byte.x12; Byte.xff] |}.
Proof.
  apply (C7_endian_readers W16
           {| Handles := tt; IBuf := []; B := []; Endian := true;
              TriceSize := 0; ParamSpace := 0; SLen := 0 |}
           [Byte.x34; Byte.x12; Byte.xff]).
  cbn. lia.
Defined.

Local Close Scope Z_scope.

(** * Further properties of [UReplaceN] *)

(** ** One directive, whatever its rule *)

(** A byte inside a directive is a percent sign only at its start and a
    conversion letter only at its end. *)
Lemma directive_byte_class s d t c :
  In d (directives s 0) -> nth_error (snd d) t = Some c ->
  (chr "%" c = true -> t = 0) /\
  (spec_letter c = true -> t = length (snd d) - 1).
Proof.
  intros Hin Hn.
  destruct (directives_in _ _ _ Hin) as (_ & fl & l & _ & _ & _ & Hd & Hfl & Hl).
  pose proof (directive_text fl l Hfl Hl) as Hs. rewrite <- Hd in Hs.
  destruct (shaped_bytes _ _ _ _ _ Hs Hn) as [[Ht Hc]|[[Ht Hc]|[Ht Hc]]].
  - split; [auto|]. subst c. intros E. discriminate E.
  - split; intros E.
    + rewrite (flag_not_pct c Hc) in E. discriminate.
    + rewrite (flag_not_letter c Hc) in E. discriminate.
  - split; [|auto]. intros E.
    rewrite (letter_not_pct c Hc) in E. discriminate.
Qed.

(** Two directives that end at the same index are one directive. *)
Lemma directive_end_unique s d d' :
  In d (directives s 0) -> In d' (directives s 0) ->
  d_end d = d_end d' -> d = d'.
Proof.
  intros Hin Hin' He.
  destruct (directive_bytes _ _ Hin) as (H2 & _ & Hb).
  destruct (directive_bytes _ _ Hin') as (H2' & _ & Hb').
  assert (Hstart : forall a b, In a (directives s 0) -> In b (directives s 0) ->
            d_end a = d_end b -> ~ fst a < fst b).
  { intros a b Ha Hbb E Hlt.
    destruct (directive_bytes _ _ Ha) as (La & _ & Ba).
    destruct (directive_bytes _ _ Hbb) as (Lb & _ & Bb).
    unfold d_end in E.
    pose proof (Bb 0 ltac:(lia)) as B0. rewrite Nat.add_0_r in B0.
    pose proof (Ba (fst b - fst a) ltac:(lia)) as A1.
    replace (fst a + (fst b - fst a)) with (fst b) in A1 by lia.
    destruct (directives_in _ _ _ Hbb) as (_ & fl & l & _ & _ & _ & Hd & _).
    rewrite Hd in B0. cbn [nth_error] in B0.
    rewrite B0 in A1. symmetry in A1.
    destruct (directive_byte_class _ _ _ _ Ha A1) as [Hp _].
    specialize (Hp eq_refl). lia. }
  assert (Hfst : fst d = fst d').
  { pose proof (Hstart d d' Hin Hin' He).
    pose proof (Hstart d' d Hin' Hin (eq_sym He)). lia. }
  assert (Hlen : length (snd d) = length (snd d'))
    by (unfold d_end in He; lia).
  destruct d as [p fm], d' as [p' fm']. cbn [fst snd] in *. subst p'.
  f_equal. apply nth_error_ext. intros t.
  destruct (Nat.lt_ge_cases t (length fm)) as [Hlt|Hge].
  - rewrite <- (Hb t Hlt). apply Hb'. lia.
  - transitivity (@None ascii); [|symmetry]; apply nth_error_None; lia.
Qed.

(** Inside a directive only its own letter can be rewritten. *)
Lemma rewritten_inside s p fm t :
  In (p, fm) (directives s 0) -> t < length fm ->
  rewritten_at (directives s 0) (p + t) =
  rule_rewrites (spec_rule fm) && (t =? length fm - 1).
Proof.
  intros Hin Ht.
  destruct (directive_bytes _ _ Hin) as (H2 & _ & Hb). cbn [fst snd] in *.
  destruct (rewritten_at (directives s 0) (p + t)) eqn:E.
  - destruct (rewritten_at_true _ _ E) as (d' & Hin' & Hr & He).
    destruct (directive_bytes _ _ Hin') as (H2' & _ & Hb').
    destruct (directives_in _ _ _ Hin')
      as (_ & fl & l & _ & _ & _ & Hd & Hfl & Hl).
    pose proof (directive_text fl l Hfl Hl) as Hs. rewrite <- Hd in Hs.
    destruct (shaped_last _ _ _ Hs) as (l' & Hn' & Hl').
    pose proof (Hb' (length (snd d') - 1) ltac:(lia)) as B'.
    replace (fst d' + (length (snd d') - 1)) with (p + t) in B'
      by (unfold d_end in He; lia).
    rewrite Hb, Hn' in B' by exact Ht.
    destruct (directive_byte_class _ _ _ _ Hin B') as [_ Hlast].
    cbn [snd] in Hlast. specialize (Hlast Hl').
    assert (d' = (p, fm)).
    { apply (directive_end_unique s); auto.
      unfold d_end in *. cbn [fst snd]. lia. }
    subst d'. cbn [snd] in Hr. rewrite Hr.
    symmetry. apply Nat.eqb_eq in Hlast. rewrite Hlast. reflexivity.
  - destruct (rule_rewrites (spec_rule fm)) eqn:Hr; [|reflexivity].
    destruct (Nat.eqb_spec t (length fm - 1)) as [->|]; [|reflexivity].
    pose proof (rewritten_at_intro _ _ Hin Hr) as E'.
    unfold d_end in E'. cbn [fst snd] in E'.
    replace (p + length fm - 1) with (p + (length fm - 1)) in E' by lia.
    congruence.
Qed.

(** What [UReplaceN] reports and returns for the directive number [k]. *)
Lemma directive_result g i k p fm :
  nth_error (directives (ReplaceAll_pct i) 0) k = Some (p, fm) ->
  exists o u,
    UReplaceN g i = Some (o, u) /\
    nth_error u k = Some (code (rule_kind (Unsigned g) (spec_rule fm))) /\
    (forall t, t < length fm -> nth_error i (p + t) = nth_error fm t) /\
    (forall t, t < length fm ->
       nth_error o (p + t) =
       if rule_rewrites (spec_rule fm) && (t =? length fm - 1)
       then Some "d" else nth_error fm t).
Proof.
  intros Hk. rewrite UReplaceN_directives.
  eexists _, _. split; [reflexivity|].
  pose proof (nth_error_In _ _ Hk) as Hin.
  split; [|split].
  - rewrite (kinds_of_nth _ _ _ _ Hk). reflexivity.
  - intros t Ht.
    destruct (input_directive_bytes i (p, fm) t Hin Ht) as [_ Ei]. exact Ei.
  - intros t Ht. rewrite o_nth, (rewritten_inside _ _ _ _ Hin Ht).
    destruct (_ && _); [reflexivity|].
    destruct (input_directive_bytes i (p, fm) t Hin Ht) as [_ Ei]. exact Ei.
Qed.

(** The same at a place of the scanned string where a percent sign,
    flags and a conversion letter stand. *)
Lemma occurrence_result g i pre fl l post :
  ReplaceAll_pct i = pre ++ "%" :: fl ++ l :: post ->
  forallb spec_flag fl = true -> spec_letter l = true ->
  exists o u k,
    UReplaceN g i = Some (o, u) /\
    nth_error (directives (ReplaceAll_pct i) 0) k
      = Some (length pre, "%" :: fl ++ [l]) /\
    nth_error u k
      = Some (code (rule_kind (Unsigned g) (spec_rule ("%" :: fl ++ [l])))) /\
    (forall t, t < length fl + 2 ->
       nth_error i (length pre + t) = nth_error ("%" :: fl ++ [l]) t) /\
    (forall t, t < length fl + 2 ->
       nth_error o (length pre + t) =
       if rule_rewrites (spec_rule ("%" :: fl ++ [l])) && (t =? length fl + 1)
       then Some "d" else nth_error ("%" :: fl ++ [l]) t).
Proof.
  intros E Hfl Hl.
  pose proof (directives_complete pre fl l post 0 Hfl Hl) as Hin.
  rewrite <- E in Hin. cbn [Nat.add] in Hin.
  destruct (In_nth_error _ _ Hin) as (k & Hk).
  assert (Hlen : length ("%" :: fl ++ [l]) = length fl + 2)
    by (cbn [length]; rewrite length_app; cbn [length]; lia).
  destruct (directive_result g i k _ _ Hk) as (o & u & H1 & H2 & H3 & H4).
  rewrite Hlen in H3, H4.
  replace (length fl + 2 - 1) with (length fl + 1) in H4 by lia.
  exists o, u, k. auto.
Qed.

Lemma spec_rule_app fl l :
  spec_rule ("%" :: fl ++ [l]) =
  if forallb no_flag fl && chr "p" l then RPointer
  else if forallb no_flag fl && chr "t" l then RBool
  else if forallb f_flag fl && one_of "eEfFgG" l then RFloat
  else if forallb digit fl && chr "u" l then RUnsignedLetter
  else if forallb digit fl && chr "i" l then RSignedLetter
  else if forallb digit fl && one_of "loOxXbpt" l then RHexFamily
  else RDefault.
Proof.
  unfold spec_rule, is_pointer, is_bool, is_float, is_unsigned_letter,
    is_signed_letter, is_hex_family.
  rewrite !shaped_app. reflexivity.
Qed.

Ltac ascii_facts c :=
  destruct c as [[] [] [] [] [] [] [] []]; vm_compute;
  intros; try discriminate; repeat split.

Lemma float_letter_facts l :
  one_of "eEfFgG" l = true ->
  spec_letter l = true /\ chr "p" l = false /\ chr "t" l = false /\
  chr "u" l = false /\ chr "i" l = false /\ one_of "loOxXbpt" l = false.
Proof. ascii_facts l. Qed.

Lemma integer_letter_facts l :
  one_of "uiloOxXbpt" l = true ->
  spec_letter l = true /\ one_of "eEfFgG" l = false.
Proof. ascii_facts l. Qed.

Lemma plain_letter_facts l :
  one_of "cdhLnq" l = true ->
  spec_letter l = true /\ chr "p" l = false /\ chr "t" l = false /\
  one_of "eEfFgG" l = false /\ chr "u" l = false /\ chr "i" l = false /\
  one_of "loOxXbpt" l = false.
Proof. ascii_facts l. Qed.

Lemma no_flag_nonempty fl : fl <> [] -> forallb no_flag fl = false.
Proof. destruct fl; [contradiction | reflexivity]. Qed.

(** X1. Signed letter.  Wherever the scanned string holds a percent sign,
    decimal digits and [i], this is a directive, say number [k]; kind
    [k] is signed (1), and in the returned string the [i] has become
    [d] while the bytes before it are as in the input. *)
Theorem signed_letter_rewritten g i pre ds post :
  ReplaceAll_pct i = pre ++ "%" :: ds ++ "i" :: post ->
  forallb digit ds = true ->
  exists o u k,
    UReplaceN g i = Some (o, u) /\
    nth_error (directives (ReplaceAll_pct i) 0) k
      = Some (length pre, "%" :: ds ++ ["i"]) /\
    nth_error u k = Some 1%Z /\
    (forall t, t < length ds + 2 ->
       nth_error i (length pre + t) = nth_error ("%" :: ds ++ ["i"]) t) /\
    (forall t, t < length ds + 1 ->
       nth_error o (length pre + t) = nth_error ("%" :: ds ++ ["i"]) t) /\
    nth_error o (length pre + length ds + 1) = Some "d".
Proof.
  intros E Hds.
  destruct (occurrence_result g i pre ds "i" post E (digits_are_flags _ Hds)
              eq_refl) as (o & u & k & H1 & Hk & H2 & H3 & H4).
  assert (Hr : spec_rule ("%" :: ds ++ ["i"]) = RSignedLetter).
  { apply spec_rule_signed_letter. unfold is_signed_letter.
    rewrite shaped_app, Hds. reflexivity. }
  rewrite Hr in H2, H4. cbn [rule_kind code rule_rewrites andb] in H2, H4.
  exists o, u, k.
  split; [exact H1|]. split; [exact Hk|]. split; [exact H2|].
  split; [exact H3|]. split.
  - intros t Ht. rewrite H4 by lia.
    destruct (Nat.eqb_spec t (length ds + 1)); [lia | reflexivity].
  - rewrite <- Nat.add_assoc, H4, Nat.eqb_refl by lia. reflexivity.
Qed.

Lemma signed_letter_rewritten_witness :
  exists o u,
    UReplaceN (globals true) (str "%%%2i") = Some (o, u) /\
    nth_error o 4 = Some "d".
Proof.
  destruct (signed_letter_rewritten (globals true) (str "%%%2i")
              (str "__") (str "2") [])
    as (o & u & k & H1 & _ & _ & _ & _ & H6); try reflexivity.
  exists o, u. auto.
Defined.

(** X2. Float letters.  A directive with one of the letters [e E f F g G] is
    reported float (2) when all its flags are among [+ - . #] and the
    digits, and signed (1) when an apostrophe is among them; its text
    is unchanged either way. *)
Theorem float_directive g i pre fl l post :
  ReplaceAll_pct i = pre ++ "%" :: fl ++ l :: post ->
  forallb spec_flag fl = true -> one_of "eEfFgG" l = true ->
  exists o u k,
    UReplaceN g i = Some (o, u) /\
    nth_error (directives (ReplaceAll_pct i) 0) k
      = Some (length pre, "%" :: fl ++ [l]) /\
    nth_error u k = Some (if forallb f_flag fl then 2%Z else 1%Z) /\
    (forall t, t < length fl + 2 ->
       nth_error o (length pre + t) = nth_error i (length pre + t)).
Proof.
  intros E Hfl Hl.
  destruct (float_letter_facts l Hl) as (Hs & Hp & Ht & Hu & Hi & Hx).
  destruct (occurrence_result g i pre fl l post E Hfl Hs)
    as (o & u & k & H1 & Hk & H2 & H3 & H4).
  rewrite spec_rule_app in H2, H4.
  rewrite Hp, Ht, Hl, Hu, Hi, Hx, !andb_false_r, andb_true_r in H2, H4.
  exists o, u, k.
  split; [exact H1|]. split; [exact Hk|]. split.
  - rewrite H2. destruct (forallb f_flag fl); reflexivity.
  - intros t Hlt. rewrite H3, H4 by exact Hlt.
    destruct (forallb f_flag fl); reflexivity.
Qed.

Lemma float_directive_witness :
  exists o u,
    UReplaceN (globals true) (str "x=%'f") = Some (o, u) /\
    nth_error u 0 = Some 1%Z.
Proof.
  destruct (float_directive (globals true) (str "x=%'f")
              (str "x=") (str "'") "f" [])
    as (o & u & k & H1 & Hk & H2 & _); try reflexivity.
  exists o, u. split; [exact H1|].
  destruct k as [|[|k]]; [exact H2 | discriminate Hk ..].
Defined.

(** X3. Pointer and bool.  The two-byte directives [%p] and [%t] are
    reported pointer (4) and bool (3) whatever [Unsigned] is, and stand
    unchanged in the returned string. *)
Theorem pointer_and_bool g i pre l post :
  ReplaceAll_pct i = pre ++ "%" :: l :: post ->
  l = "p" \/ l = "t" ->
  exists o u k,
    UReplaceN g i = Some (o, u) /\
    nth_error (directives (ReplaceAll_pct i) 0) k = Some (length pre, ["%"; l]) /\
    nth_error u k = Some (if Ascii.eqb l "p" then 4%Z else 3%Z) /\
    nth_error o (length pre) = Some "%" /\
    nth_error o (length pre + 1) = Some l.
Proof.
  intros E Hl.
  assert (Hs : spec_letter l = true) by (destruct Hl; subst l; reflexivity).
  destruct (occurrence_result g i pre [] l post E eq_refl Hs)
    as (o & u & k & H1 & Hk & H2 & _ & H4).
  cbn [app length Nat.add] in *.
  assert (Hr : spec_rule ["%"; l] = if Ascii.eqb l "p" then RPointer else RBool)
    by (destruct Hl; subst l; reflexivity).
  rewrite Hr in H2, H4.
  exists o, u, k.
  split; [exact H1|]. split; [exact Hk|]. split; [|split].
  - rewrite H2. destruct (Ascii.eqb l "p"); reflexivity.
  - rewrite <- (Nat.add_0_r (length pre)), H4 by lia.
    destruct (Ascii.eqb l "p"); reflexivity.
  - rewrite H4 by lia. destruct (Ascii.eqb l "p"); reflexivity.
Qed.

Lemma pointer_and_bool_witness :
  exists o u,
    UReplaceN (globals true) (str "at %p") = Some (o, u) /\
    nth_error u 0 = Some 4%Z.
Proof.
  destruct (pointer_and_bool (globals true) (str "at %p") (str "at ") "p" [])
    as (o & u & k & H1 & Hk & H2 & _).
  - reflexivity.
  - left. reflexivity.
  - exists o, u. split; [exact H1|].
    destruct k as [|[|k]]; [exact H2 | discriminate Hk ..].
Defined.

(** X4. A flag other than a digit in front of an integer letter.  A
    directive with one of the letters [u i l o O x X b p t] and at least
    one flag that is no decimal digit is reported signed (1) whatever
    [Unsigned] is, and is not rewritten: even [u] and [i] stay. *)
Theorem flagged_integer_letter g i pre fl l post :
  ReplaceAll_pct i = pre ++ "%" :: fl ++ l :: post ->
  forallb spec_flag fl = true -> forallb digit fl = false ->
  one_of "uiloOxXbpt" l = true ->
  exists o u k,
    UReplaceN g i = Some (o, u) /\
    nth_error (directives (ReplaceAll_pct i) 0) k
      = Some (length pre, "%" :: fl ++ [l]) /\
    nth_error u k = Some 1%Z /\
    (forall t, t < length fl + 2 ->
       nth_error o (length pre + t) = nth_error i (length pre + t)).
Proof.
  intros E Hfl Hd Hl.
  destruct (integer_letter_facts l Hl) as (Hs & Hf).
  destruct (occurrence_result g i pre fl l post E Hfl Hs)
    as (o & u & k & H1 & Hk & H2 & H3 & H4).
  assert (Hne : fl <> []) by (intros ->; discriminate Hd).
  assert (Hr : spec_rule ("%" :: fl ++ [l]) = RDefault).
  { rewrite spec_rule_app, (no_flag_nonempty fl Hne), Hd, Hf, andb_false_r.
    reflexivity. }
  rewrite Hr in H2, H4. cbn [rule_kind code rule_rewrites andb] in H2, H4.
  exists o, u, k.
  split; [exact H1|]. split; [exact Hk|]. split; [exact H2|].
  intros t Ht. rewrite H3, H4 by exact Ht. reflexivity.
Qed.

Lemma flagged_integer_letter_witness :
  exists o u,
    UReplaceN (globals true) (str "%-5u") = Some (o, u) /\
    nth_error u 0 = Some 1%Z /\ nth_error o 3 = Some "u".
Proof.
  destruct (flagged_integer_letter (globals true) (str "%-5u")
              [] (str "-5") "u" [])
    as (o & u & k & H1 & Hk & H2 & H3); try reflexivity.
  exists o, u. split; [exact H1|]. split.
  - destruct k as [|[|k]]; [exact H2 | discriminate Hk ..].
  - apply (H3 3). cbn. lia.
Defined.

(** X5. The remaining letters.  A directive with one of the letters
    [c d h L n q] is reported signed (1) with any flags and whatever
    [Unsigned] is, and stands unchanged in the returned string. *)
Theorem plain_letter_signed g i pre fl l post :
  ReplaceAll_pct i = pre ++ "%" :: fl ++ l :: post ->
  forallb spec_flag fl = true -> one_of "cdhLnq" l = true ->
  exists o u k,
    UReplaceN g i = Some (o, u) /\
    nth_error (directives (ReplaceAll_pct i) 0) k
      = Some (length pre, "%" :: fl ++ [l]) /\
    nth_error u k = Some 1%Z /\
    (forall t, t < length fl + 2 ->
       nth_error o (length pre + t) = nth_error i (length pre + t)).
Proof.
  intros E Hfl Hl.
  destruct (plain_letter_facts l Hl) as (Hs & Hp & Ht & Hf & Hu & Hi & Hx).
  destruct (occurrence_result g i pre fl l post E Hfl Hs)
    as (o & u & k & H1 & Hk & H2 & H3 & H4).
  assert (Hr : spec_rule ("%" :: fl ++ [l]) = RDefault).
  { rewrite spec_rule_app, Hp, Ht, Hf, Hu, Hi, Hx, !andb_false_r.
    reflexivity. }
  rewrite Hr in H2, H4. cbn [rule_kind code rule_rewrites andb] in H2, H4.
  exists o, u, k.
  split; [exact H1|]. split; [exact Hk|]. split; [exact H2|].
  intros t Hlt. rewrite H3, H4 by exact Hlt. reflexivity.
Qed.

Lemma plain_letter_signed_witness :
  exists o u,
    UReplaceN (globals true) (str "%+3d") = Some (o, u) /\
    nth_error u 0 = Some 1%Z.
Proof.
  destruct (plain_letter_signed (globals true) (str "%+3d")
              [] (str "+3") "d" [])
    as (o & u & k & H1 & Hk & H2 & _); try reflexivity.
  exists o, u. split; [exact H1|].
  destruct k as [|[|k]]; [exact H2 | discriminate Hk ..].
Defined.

(** ** How many kinds, and which *)

Lemma directives_count n : forall s pos,
  length s <= n -> 2 * length (directives s pos) <= length s.
Proof.
  induction n as [|n IH]; intros s pos Hn.
  - destruct s; [cbn; lia | cbn in Hn; lia].
  - destruct s as [|c s]; [cbn; lia|].
    cbn [directives].
    destruct (match_here matchNextFormatSpecifier (c :: s)) as [m|] eqn:E.
    + destruct (match_here_spec_inv _ _ E) as (fl & l & rest & Es & Hfl & Hl & ->).
      injection Es as -> ->.
      replace (fl ++ l :: rest) with ((fl ++ [l]) ++ rest)
        by (rewrite <- app_assoc; reflexivity).
      rewrite directives_skip by (apply directive_tail_no_pct; assumption).
      cbn [length] in *. rewrite !length_app in *. cbn [length] in *.
      specialize (IH rest (S pos + (length fl + 1)) ltac:(lia)). lia.
    + cbn [length] in *. specialize (IH s (S pos) ltac:(lia)). lia.
Qed.

Lemma code_range k : (0 <= code k <= 4)%Z.
Proof. destruct k; cbn; lia. Qed.

(** X6. Every kind [UReplaceN] reports is one of the codes 0 to 4, a kind 0
    is reported with [Unsigned] set or for a directive that was
    rewritten only, and a format string of [n] bytes has at most [n/2]
    kinds. *)
Theorem kinds_range_and_count g i :
  exists o u,
    UReplaceN g i = Some (o, u) /\
    Forall (fun k => (0 <= k <= 4)%Z) u /\
    2 * length u <= length i /\
    (Unsigned g = false ->
     forall k, nth_error u k = Some 0%Z ->
     exists p fm, nth_error (directives (ReplaceAll_pct i) 0) k = Some (p, fm) /\
                  is_unsigned_letter fm = true /\
                  nth_error i (p + length fm - 1) = Some "u" /\
                  nth_error o (p + length fm - 1) = Some "d").
Proof.
  rewrite UReplaceN_directives. eexists _, _. split; [reflexivity|].
  split; [|split].
  - unfold kinds_of. apply Forall_map, Forall_forall.
    intros d _. apply code_range.
  - unfold kinds_of. rewrite length_map.
    pose proof (directives_count _ (ReplaceAll_pct i) 0 (Nat.le_refl _)) as H.
    rewrite ReplaceAll_pct_length in H. exact H.
  - intros Hu k Hk. unfold kinds_of in Hk. rewrite nth_error_map in Hk.
    destruct (nth_error (directives (ReplaceAll_pct i) 0) k) as [[p fm]|] eqn:E;
      [|discriminate].
    cbn [option_map snd] in Hk. injection Hk as Hk.
    assert (Hr : spec_rule fm = RUnsignedLetter).
    { rewrite Hu in Hk. destruct (spec_rule fm); cbn in Hk; congruence. }
    assert (Hs : is_unsigned_letter fm = true).
    { destruct (rule_rewrites_inv fm) as [H|H];
        [rewrite Hr; reflexivity | exact H |].
      rewrite (spec_rule_signed_letter fm H) in Hr. discriminate. }
    exists p, fm. split; [reflexivity|]. split; [exact Hs|].
    destruct (unsigned_letter_directive g i k p fm E Hs)
      as (o' & u' & H1 & _ & H3 & H4 & _).
    rewrite UReplaceN_directives in H1. injection H1 as <- <-. auto.
Qed.

Lemma kinds_range_and_count_witness :
  exists o u,
    UReplaceN (globals false) (str "%u %x") = Some (o, u) /\
    2 * length u <= 5.
Proof.
  destruct (kinds_range_and_count (globals false) (str "%u %x"))
    as (o & u & H1 & _ & H3 & _).
  exists o, u. split; [exact H1 | exact H3].
Defined.

(** ** The returned string, scanned again *)

Lemma ReplaceAll_pct_app_byte (pre : gostring) c post :
  Ascii.eqb c "%" = false ->
  ReplaceAll_pct (pre ++ c :: post) = ReplaceAll_pct pre ++ c :: ReplaceAll_pct post.
Proof.
  intros Hc.
  assert (H0 : ReplaceAll_pct (c :: post) = c :: ReplaceAll_pct post).
  { destruct post as [|c2 s2]; [reflexivity|].
    rewrite ReplaceAll_pct_cons2, Hc. reflexivity. }
  induction pre as [|a|a b s IH1 IH2] using gostring_ind2.
  - exact H0.
  - cbn [app]. rewrite ReplaceAll_pct_cons2, Hc, andb_false_r, H0.
    reflexivity.
  - cbn [app] in *. rewrite !ReplaceAll_pct_cons2.
    destruct (Ascii.eqb a "%" && Ascii.eqb b "%").
    + rewrite IH1. reflexivity.
    + rewrite IH2. reflexivity.
Qed.

Lemma update_app l1 c l2 x : update (l1 ++ c :: l2) (length l1) x = l1 ++ x :: l2.
Proof.
  unfold update.
  rewrite firstn_app, firstn_all, Nat.sub_diag. cbn [firstn].
  rewrite app_nil_r.
  replace (S (length l1)) with (length (l1 ++ [c]))
    by (rewrite length_app; cbn; lia).
  replace (l1 ++ c :: l2) with ((l1 ++ [c]) ++ l2)
    by (rewrite <- app_assoc; reflexivity).
  rewrite skipn_app, skipn_all, Nat.sub_diag. reflexivity.
Qed.

Lemma ReplaceAll_pct_update o j c :
  nth_error o j = Some c -> Ascii.eqb c "%" = false ->
  ReplaceAll_pct (update o j "d") = update (ReplaceAll_pct o) j "d".
Proof.
  intros Hn Hc.
  destruct (nth_error_split _ _ Hn) as (l1 & l2 & -> & <-).
  rewrite update_app, !ReplaceAll_pct_app_byte by (exact Hc || reflexivity).
  rewrite <- (ReplaceAll_pct_length l1).
  rewrite update_app. reflexivity.
Qed.

Lemma ReplaceAll_pct_fold ds : forall o,
  (forall d, In d ds -> rule_rewrites (spec_rule (snd d)) = true ->
     exists c, nth_error o (d_end d - 1) = Some c /\ Ascii.eqb c "%" = false) ->
  ReplaceAll_pct (fold_left rewrite_step ds o)
  = fold_left rewrite_step ds (ReplaceAll_pct o).
Proof.
  induction ds as [|d ds IH]; intros o H; [reflexivity|].
  cbn [fold_left]. unfold rewrite_step at 2 4.
  destruct (rule_rewrites (spec_rule (snd d))) eqn:Hr.
  - destruct (H d (or_introl eq_refl) Hr) as (c & Hn & Hc).
    rewrite <- (ReplaceAll_pct_update o _ c Hn Hc).
    apply IH. intros d' Hin' Hr'.
    destruct (H d' (or_intror Hin') Hr') as (c' & Hn' & Hc').
    assert (Hlt : d_end d - 1 < length o)
      by (apply nth_error_Some; congruence).
    rewrite update_nth by exact Hlt.
    destruct (d_end d - 1 =? d_end d' - 1); eauto.
  - apply IH. intros d' Hin' Hr'. apply H; [right|]; assumption.
Qed.

(** The scanned copy of the returned string is the scanned copy of the
    input with the same letters rewritten. *)
Lemma masked_output_nth i j :
  nth_error (ReplaceAll_pct
               (fold_left rewrite_step (directives (ReplaceAll_pct i) 0) i)) j
  = if rewritten_at (directives (ReplaceAll_pct i) 0) j then Some "d"
    else nth_error (ReplaceAll_pct i) j.
Proof.
  rewrite ReplaceAll_pct_fold.
  - apply fold_rewrite_nth. intros d Hin.
    rewrite ReplaceAll_pct_length. apply ds_bounds. exact Hin.
  - intros d Hin _.
    destruct (directive_letter i d Hin) as (l & Hl & _ & _ & Hi).
    exists l. split; [exact Hi|].
    pose proof (letter_not_pct l Hl) as E. unfold chr in E.
    rewrite Ascii.eqb_sym. exact E.
Qed.

Lemma occurrence_from_bytes (s x : gostring) p :
  x <> [] ->
  (forall t, t < length x -> nth_error s (p + t) = nth_error x t) ->
  s = firstn p s ++ x ++ skipn (p + length x) s.
Proof.
  intros Hx H.
  assert (Hp : p + length x <= length s).
  { destruct (Nat.le_gt_cases (p + length x) (length s)) as [|Hgt]; [assumption|].
    assert (Hl : 0 < length x) by (destruct x; [contradiction | cbn; lia]).
    specialize (H (length x - 1) ltac:(lia)).
    assert (E : nth_error s (p + (length x - 1)) = None)
      by (apply nth_error_None; lia).
    rewrite E in H. symmetry in H. apply nth_error_None in H. lia. }
  assert (Hf : length (firstn p s) = p) by (rewrite length_firstn; lia).
  apply nth_error_ext. intros j.
  destruct (Nat.lt_ge_cases j p) as [Hlt|Hge].
  - rewrite nth_error_app1 by lia. rewrite nth_error_firstn.
    destruct (Nat.ltb_spec j p); [reflexivity | lia].
  - rewrite nth_error_app2, Hf by lia.
    destruct (Nat.lt_ge_cases (j - p) (length x)) as [Hlt|Hge'].
    + rewrite nth_error_app1 by exact Hlt. rewrite <- H by exact Hlt.
      f_equal. lia.
    + rewrite nth_error_app2 by exact Hge'.
      rewrite nth_error_skipn. f_equal. lia.
Qed.

Lemma occurrence_bytes (s pre x post : gostring) t :
  s = pre ++ x ++ post -> t < length x ->
  nth_error s (length pre + t) = nth_error x t.
Proof.
  intros -> Ht. rewrite nth_error_app2 by lia.
  replace (length pre + t - length pre) with t by lia.
  apply nth_error_app1. exact Ht.
Qed.

(** No place of the scanned copy of the returned string holds a percent
    sign, decimal digits and [u] or [i]. *)
Lemma no_rewritable_left i pre dg l post :
  ReplaceAll_pct (fold_left rewrite_step (directives (ReplaceAll_pct i) 0) i)
  = pre ++ "%" :: dg ++ l :: post ->
  forallb digit dg = true -> l <> "u" /\ l <> "i".
Proof.
  intros E Hdg.
  set (ds := directives (ReplaceAll_pct i) 0) in *.
  set (fm := "%" :: dg ++ [l]).
  enough (H : ~ (l = "u" \/ l = "i")) by tauto.
  intros Hl.
  assert (Hlen : length fm = length dg + 2)
    by (unfold fm; cbn [length]; rewrite length_app; cbn [length]; lia).
  assert (E' : ReplaceAll_pct (fold_left rewrite_step ds i)
               = pre ++ fm ++ post).
  { rewrite E. unfold fm. cbn [app]. rewrite <- app_assoc. reflexivity. }
  assert (Hsh : shaped digit (chr l) fm = true).
  { unfold fm. rewrite shaped_app, Hdg. unfold chr.
    rewrite Ascii.eqb_refl. reflexivity. }
  assert (Hrule : rule_rewrites (spec_rule fm) = true).
  { destruct Hl as [-> | ->].
    - rewrite (spec_rule_unsigned_letter fm Hsh). reflexivity.
    - rewrite (spec_rule_signed_letter fm Hsh). reflexivity. }
  assert (Hsame : forall t, t < length fm ->
            rewritten_at ds (length pre + t) = false /\
            nth_error (ReplaceAll_pct i) (length pre + t) = nth_error fm t).
  { intros t Ht.
    pose proof (occurrence_bytes _ _ _ _ t E' Ht) as Hn.
    unfold ds in Hn. rewrite masked_output_nth in Hn. fold ds in Hn.
    destruct (rewritten_at ds (length pre + t)); [|auto].
    symmetry in Hn.
    destruct (shaped_bytes _ _ _ _ _ Hsh Hn) as [[_ C]|[[_ C]|[_ C]]];
      [discriminate C | discriminate C |].
    apply chr_eq in C. destruct Hl; subst l; discriminate C. }
  assert (Hocc : ReplaceAll_pct i
                 = firstn (length pre) (ReplaceAll_pct i) ++ fm
                   ++ skipn (length pre + length fm) (ReplaceAll_pct i)).
  { apply occurrence_from_bytes; [discriminate|].
    intros t Ht. apply Hsame. exact Ht. }
  assert (Hpre : length (firstn (length pre) (ReplaceAll_pct i)) = length pre).
  { rewrite length_firstn. apply Nat.min_l.
    destruct (Nat.le_gt_cases (length pre) (length (ReplaceAll_pct i)))
      as [|Hgt]; [assumption|].
    destruct (Hsame 0 ltac:(lia)) as [_ H0].
    assert (N : nth_error (ReplaceAll_pct i) (length pre + 0) = None)
      by (apply nth_error_None; lia).
    rewrite N in H0. discriminate H0. }
  assert (Hin : In (length pre, fm) ds).
  { pose proof (directives_complete
                  (firstn (length pre) (ReplaceAll_pct i)) dg l
                  (skipn (length pre + length fm) (ReplaceAll_pct i)) 0
                  (digits_are_flags _ Hdg)) as H.
    rewrite Hpre in H. unfold ds. rewrite Hocc at 1.
    unfold fm. cbn [app]. rewrite <- app_assoc. cbn [app Nat.add] in *.
    apply H. destruct Hl; subst l; reflexivity. }
  pose proof (rewritten_at_intro ds _ Hin Hrule) as Hat.
  unfold d_end in Hat. cbn [fst snd] in Hat.
  destruct (Hsame (length fm - 1) ltac:(lia)) as [Hno _].
  replace (length pre + (length fm - 1)) with (length pre + length fm - 1)
    in Hno by lia.
  congruence.
Qed.

(** ** Strings the specifier pattern cannot tell apart *)

Lemma same_class_refl s : Forall2 same_class s s.
Proof. induction s; constructor; [repeat split | assumption]. Qed.

Lemma same_class_trans s1 : forall s2 s3,
  Forall2 same_class s1 s2 -> Forall2 same_class s2 s3 ->
  Forall2 same_class s1 s3.
Proof.
  induction s1 as [|a s1 IH]; intros s2 s3 H12 H23;
    inversion H12; subst; inversion H23; subst; constructor.
  - unfold same_class in *. intuition congruence.
  - eapply IH; eassumption.
Qed.

Lemma same_class_span s : forall s',
  Forall2 same_class s s' -> span spec_flag s = span spec_flag s'.
Proof.
  induction s as [|a s IH]; intros s' H; inversion H as [|? b ? t Hab Ht];
    subst; [reflexivity|].
  cbn [span]. destruct Hab as (_ & <- & _).
  destruct (spec_flag a); [f_equal; apply IH; exact Ht | reflexivity].
Qed.

Lemma same_class_nth s : forall s' n,
  Forall2 same_class s s' ->
  match nth_error s n, nth_error s' n with
  | Some a, Some b => same_class a b
  | None, None => True
  | _, _ => False
  end.
Proof.
  induction s as [|a s IH]; intros s' n H; inversion H as [|? b ? t Hab Ht];
    subst.
  - destruct n; exact I.
  - destruct n as [|n]; cbn [nth_error]; [exact Hab | apply IH; exact Ht].
Qed.

Lemma match_here_same_class s s' :
  Forall2 same_class s s' ->
  match_here matchNextFormatSpecifier s = match_here matchNextFormatSpecifier s'.
Proof.
  intros H. unfold matchNextFormatSpecifier.
  rewrite !(match_three _ _ _ flag_not_letter).
  inversion H as [|a b r r' Hab Hr]; subst; [reflexivity|].
  destruct Hab as (<- & _ & _).
  destruct (chr "%" a); [|reflexivity].
  rewrite <- (same_class_span r r' Hr).
  pose proof (same_class_nth r r' (span spec_flag r) Hr) as Hn.
  destruct (nth_error r (span spec_flag r)) as [x|],
           (nth_error r' (span spec_flag r)) as [y|];
    try contradiction; [|reflexivity].
  destruct Hn as (_ & _ & <-). reflexivity.
Qed.

Lemma directives_same_class s : forall s' pos,
  Forall2 same_class s s' ->
  map fst (directives s pos) = map fst (directives s' pos).
Proof.
  induction s as [|a s IH]; intros s' pos H;
    inversion H as [|? b ? t Hab Ht]; subst; [reflexivity|].
  cbn [directives]. rewrite <- (match_here_same_class _ _ H).
  destruct (match_here matchNextFormatSpecifier (a :: s));
    cbn [map fst]; [f_equal|]; apply IH; exact Ht.
Qed.

Lemma update_same_class o j c :
  nth_error o j = Some c -> spec_letter c = true ->
  Forall2 same_class o (update o j "d").
Proof.
  intros Hn Hc.
  destruct (nth_error_split _ _ Hn) as (l1 & l2 & -> & <-).
  rewrite update_app. apply Forall2_app; [apply same_class_refl|].
  constructor; [|apply same_class_refl].
  unfold same_class.
  rewrite (letter_not_pct c Hc), Hc.
  rewrite (disjoint_sym _ _ flag_not_letter c Hc). repeat split.
Qed.

Lemma fold_same_class ds : forall s,
  (forall d, In d ds -> rule_rewrites (spec_rule (snd d)) = true ->
     exists c, nth_error s (d_end d - 1) = Some c /\ spec_letter c = true) ->
  Forall2 same_class s (fold_left rewrite_step ds s).
Proof.
  induction ds as [|d ds IH]; intros s H; [apply same_class_refl|].
  cbn [fold_left]. unfold rewrite_step at 2.
  destruct (rule_rewrites (spec_rule (snd d))) eqn:Hr.
  - destruct (H d (or_introl eq_refl) Hr) as (c & Hn & Hc).
    eapply same_class_trans; [apply (update_same_class s _ c Hn Hc)|].
    apply IH. intros d' Hin' Hr'.
    destruct (H d' (or_intror Hin') Hr') as (c' & Hn' & Hc').
    assert (Hlt : d_end d - 1 < length s)
      by (apply nth_error_Some; congruence).
    rewrite update_nth by exact Hlt.
    destruct (d_end d - 1 =? d_end d' - 1); eauto.
  - apply IH. intros d' Hin' Hr'. apply H; [right|]; assumption.
Qed.

Lemma fold_no_rewrite ds : forall o,
  (forall d, In d ds -> rule_rewrites (spec_rule (snd d)) = false) ->
  fold_left rewrite_step ds o = o.
Proof.
  induction ds as [|d ds IH]; intros o H; [reflexivity|].
  cbn [fold_left]. unfold rewrite_step at 2.
  rewrite (H d (or_introl eq_refl)).
  apply IH. intros d' Hin'. apply H. right. exact Hin'.
Qed.

(** The scanned copies of the input and of the returned string have
    their directives at the same indices. *)
Lemma output_directives_at_same_places i :
  map fst (directives (ReplaceAll_pct i) 0) =
  map fst (directives
             (ReplaceAll_pct
                (fold_left rewrite_step (directives (ReplaceAll_pct i) 0) i)) 0).
Proof.
  apply directives_same_class.
  rewrite ReplaceAll_pct_fold.
  - apply fold_same_class. intros d Hin _.
    destruct (directive_letter i d Hin) as (l & Hl & _ & Him & _). eauto.
  - intros d Hin _.
    destruct (directive_letter i d Hin) as (l & Hl & _ & _ & Hi).
    exists l. split; [exact Hi|].
    pose proof (letter_not_pct l Hl) as E. unfold chr in E.
    rewrite Ascii.eqb_sym. exact E.
Qed.



(** X8. Classifying the returned string once more gives the same string
    back, with as many kinds as the first time. *)
Theorem returned_string_is_fixed g i :
  exists o u u',
    UReplaceN g i = Some (o, u) /\
    UReplaceN g o = Some (o, u') /\
    length u' = length u.
Proof.
  rewrite UReplaceN_directives.
  eexists _, _, _. split; [reflexivity|].
  rewrite UReplaceN_directives. split.
  - f_equal. f_equal. apply fold_no_rewrite. intros d Hin.
    destruct (rule_rewrites (spec_rule (snd d))) eqn:Hr; [|reflexivity].
    exfalso.
    destruct (directives_in _ _ _ Hin) as (pre & _ & _ & post & E & _).
    assert (Hsh : exists l, (l = "u" \/ l = "i") /\
                            shaped digit (chr l) (snd d) = true).
    { destruct (rule_rewrites_inv _ Hr) as [H|H]; eauto. }
    destruct Hsh as (l & Hl & Hsh).
    apply shaped_inv in Hsh as (dg & l' & Hd & Hdg & Hl').
    apply chr_eq in Hl'. subst l'.
    rewrite Hd in E. cbn [app] in E. rewrite <- app_assoc in E. cbn [app] in E.
    destruct (no_rewritable_left i pre dg l post E Hdg). tauto.
  - unfold kinds_of. rewrite !length_map.
    rewrite <- (length_map fst), <- output_directives_at_same_places.
    apply length_map.
Qed.

(** * Further properties of the endian readers *)

Local Open Scope Z_scope.

Lemma ReadU_decode {H} (w : width) (p : DecoderData H) (b : list Byte.byte) :
  (nbytes w <= length b)%nat ->
  ReadU w p b =
    Some {| value := decode (Endian p) (firstn (nbytes w) b);
            receiver := p; bytes := b |}.
Proof.
  intros Hlen.
  destruct w; cbn [nbytes ReadU] in *;
    unfold ReadU16, ReadU32, ReadU64, decode;
    repeat (destruct b as [|? b]; [cbn [length] in Hlen; lia|]);
    cbn [firstn];
    destruct (Endian p);
    rewrite ?LittleEndian_Uint16_value, ?BigEndian_Uint16_value,
      ?LittleEndian_Uint32_value, ?BigEndian_Uint32_value,
      ?LittleEndian_Uint64_value, ?BigEndian_Uint64_value;
    reflexivity.
Qed.

Lemma ReadU_short {H} (w : width) (p : DecoderData H) (b : list Byte.byte) :
  (length b < nbytes w)%nat -> ReadU w p b = None.
Proof.
  intros Hlen.
  destruct w; cbn [nbytes ReadU] in *;
    unfold ReadU16, ReadU32, ReadU64;
    repeat (destruct b as [|? b];
            [destruct (Endian p); reflexivity|]);
    cbn [length] in Hlen; lia.
Qed.

Lemma big_endian_rev bs : big_endian (rev bs) = little_endian bs.
Proof.
  induction bs as [|x bs IH].
  - reflexivity.
  - cbn [rev]. unfold big_endian. rewrite fold_left_app. cbn [fold_left].
    fold (big_endian (rev bs)). rewrite IH.
    unfold little_endian. cbn [fold_right]. lia.
Qed.

Lemma little_endian_rev bs : little_endian (rev bs) = big_endian bs.
Proof. rewrite <- big_endian_rev, rev_involutive. reflexivity. Qed.

Lemma firstn_rev_firstn {A} n (b : list A) :
  (n <= length b)%nat -> firstn n (rev (firstn n b)) = rev (firstn n b).
Proof.
  intros H. apply firstn_all2. rewrite length_rev, length_firstn. lia.
Qed.

(** X10. Byte order.  Reading with one byte order gives what reading the
    same bytes in reverse gives with the other byte order. *)
Theorem read_reversed_bytes {H} (w : width) (p q : DecoderData H)
    (b : list Byte.byte) :
  (nbytes w <= length b)%nat -> Endian q = negb (Endian p) ->
  exists r r',
    ReadU w p b = Some r /\
    ReadU w q (rev (firstn (nbytes w) b)) = Some r' /\
    value r = value r'.
Proof.
  intros Hlen Hq.
  rewrite (ReadU_decode w p b Hlen).
  rewrite (ReadU_decode w q (rev (firstn (nbytes w) b)))
    by (rewrite length_rev, length_firstn; lia).
  eexists _, _. split; [reflexivity|]. split; [reflexivity|].
  cbn [value]. rewrite firstn_rev_firstn by exact Hlen.
  rewrite Hq. unfold decode.
  destruct (Endian p); cbn [negb];
    [rewrite big_endian_rev | rewrite little_endian_rev]; reflexivity.
Qed.

Lemma read_reversed_bytes_witness :
  exists r r',
    ReadU16 {| Handles := tt; IBuf := []; B := []; Endian := true;
               TriceSize := 0; ParamSpace := 0; SLen := 0 |}
            [Byte.x34; Byte.x12] = Some r /\
    ReadU16 {| Handles := tt; IBuf := []; B := []; Endian := false;
               TriceSize := 0; ParamSpace := 0; SLen := 0 |}
            [Byte.x12; Byte.x34] = Some r' /\
    value r = value r'.
Proof.
  apply (read_reversed_bytes W16
           {| Handles := tt; IBuf := []; B := []; Endian := true;
              TriceSize := 0; ParamSpace := 0; SLen := 0 |}
           {| Handles := tt; IBuf := []; B := []; Endian := false;
              TriceSize := 0; ParamSpace := 0; SLen := 0 |}
           [Byte.x34; Byte.x12]).
  - cbn. lia.
  - reflexivity.
Defined.

Lemma byte_val_inj x y : byte_val x = byte_val y -> x = y.
Proof.
  unfold byte_val. intros E. apply N2Z.inj in E.
  pose proof (Byte.of_to_N x) as Hx. rewrite E, Byte.of_to_N in Hx.
  congruence.
Qed.

Lemma little_endian_nonneg bs : 0 <= little_endian bs.
Proof.
  induction bs as [|x bs IH]; [cbn; lia|].
  unfold little_endian in *. cbn [fold_right].
  pose proof (byte_val_range x). lia.
Qed.

Lemma little_endian_inj bs : forall cs,
  length bs = length cs -> little_endian bs = little_endian cs -> bs = cs.
Proof.
  induction bs as [|x bs IH]; intros [|y cs] Hl E; try discriminate Hl.
  - reflexivity.
  - unfold little_endian in E. cbn [fold_right] in E.
    fold (little_endian bs) in E. fold (little_endian cs) in E.
    pose proof (byte_val_range x). pose proof (byte_val_range y).
    pose proof (little_endian_nonneg bs). pose proof (little_endian_nonneg cs).
    assert (byte_val x = byte_val y) by lia.
    assert (little_endian bs = little_endian cs) by lia.
    f_equal; [apply byte_val_inj; assumption|].
    apply IH; [cbn [length] in Hl; lia | assumption].
Qed.

Lemma decode_inj little bs cs :
  length bs = length cs -> decode little bs = decode little cs -> bs = cs.
Proof.
  intros Hl E. destruct little; cbn [decode] in E.
  - apply little_endian_inj; assumption.
  - rewrite <- !little_endian_rev in E.
    apply little_endian_inj in E; [|rewrite !length_rev; exact Hl].
    rewrite <- (rev_involutive bs), <- (rev_involutive cs), E. reflexivity.
Qed.

(** X11. Nothing is lost.  Two slices on which a reader returns the same
    value have the same first 2, 4, 8 bytes. *)
Theorem read_injective {H} (w : width) (p : DecoderData H)
    (b1 b2 : list Byte.byte) (r1 r2 : outcome H) :
  ReadU w p b1 = Some r1 -> ReadU w p b2 = Some r2 ->
  value r1 = value r2 ->
  firstn (nbytes w) b1 = firstn (nbytes w) b2.
Proof.
  intros H1 H2 E.
  assert (L1 : (nbytes w <= length b1)%nat).
  { destruct (Nat.le_gt_cases (nbytes w) (length b1)) as [|Hlt]; [assumption|].
    rewrite (ReadU_short w p b1 Hlt) in H1. discriminate. }
  assert (L2 : (nbytes w <= length b2)%nat).
  { destruct (Nat.le_gt_cases (nbytes w) (length b2)) as [|Hlt]; [assumption|].
    rewrite (ReadU_short w p b2 Hlt) in H2. discriminate. }
  rewrite (ReadU_decode w p b1 L1) in H1. injection H1 as <-.
  rewrite (ReadU_decode w p b2 L2) in H2. injection H2 as <-.
  cbn [value] in E.
  apply (decode_inj (Endian p)); [|exact E].
  rewrite !length_firstn. lia.
Qed.

Lemma read_injective_witness :
  firstn 2 [Byte.x34; Byte.x12; Byte.x00] = firstn 2 [Byte.x34; Byte.x12; Byte.xff].
Proof.
  pose (p := {| Handles := tt; IBuf := []; B := []; Endian := true;
                TriceSize := 0; ParamSpace := 0; SLen := 0 |}).
  apply (read_injective W16 p _ _
           {| value := 4660; receiver := p;
              bytes := [Byte.x34; Byte.x12; Byte.x00] |}
           {| value := 4660; receiver := p;
              bytes := [Byte.x34; Byte.x12; Byte.xff] |});
    reflexivity.
Defined.

(** X12. Halves.  A 32-bit read is made of the 16-bit reads of the two
    halves of its four bytes: the first half is the low one when
    [Endian] is true and the high one when it is false. *)
Theorem read32_from_read16 {H} (p : DecoderData H) (b : list Byte.byte) :
  (4 <= length b)%nat ->
  exists r first second,
    ReadU32 p b = Some r /\
    ReadU16 p b = Some first /\
    ReadU16 p (skipn 2 b) = Some second /\
    value r = if Endian p then value first + 65536 * value second
              else 65536 * value first + value second.
Proof.
  intros Hlen.
  change (ReadU32 p b) with (ReadU W32 p b).
  change (@ReadU16 H) with (@ReadU H W16).
  rewrite (ReadU_decode W32 p b Hlen).
  rewrite (ReadU_decode W16 p b) by (cbn [nbytes]; lia).
  rewrite (ReadU_decode W16 p (skipn 2 b))
    by (rewrite length_skipn; cbn [nbytes]; lia).
  eexists _, _, _. repeat (split; [reflexivity|]).
  cbn [value nbytes].
  repeat (destruct b as [|? b]; [cbn [length] in Hlen; lia|]).
  unfold decode.
  destruct (Endian p);
    cbn [firstn skipn little_endian big_endian fold_right fold_left]; lia.
Qed.

Lemma read32_from_read16_witness :
  exists r (first second : outcome unit),
    ReadU32 {| Handles := tt; IBuf := []; B := []; Endian := false;
               TriceSize := 0; ParamSpace := 0; SLen := 0 |}
            [Byte.x12; Byte.x34; Byte.x56; Byte.x78] = Some r /\
    value first = 4660 /\ value second = 22136 /\
    value r = 65536 * value first + value second.
Proof.
  destruct (read32_from_read16
              {| Handles := tt; IBuf := []; B := []; Endian := false;
                 TriceSize := 0; ParamSpace := 0; SLen := 0 |}
              [Byte.x12; Byte.x34; Byte.x56; Byte.x78])
    as (r & a & c & H1 & H2 & H3 & H4).
  - cbn. lia.
  - exists r, a, c. split; [exact H1|].
    injection H2 as <-. injection H3 as <-.
    split; [reflexivity|]. split; [reflexivity | exact H4].
Defined.

(** X13. A 64-bit read is made of the 32-bit reads of the two halves of its
    eight bytes in the same way. *)
Theorem read64_from_read32 {H} (p : DecoderData H) (b : list Byte.byte) :
  (8 <= length b)%nat ->
  exists r first second,
    ReadU64 p b = Some r /\
    ReadU32 p b = Some first /\
    ReadU32 p (skipn 4 b) = Some second /\
    value r = if Endian p then value first + 4294967296 * value second
              else 4294967296 * value first + value second.
Proof.
  intros Hlen.
  change (ReadU64 p b) with (ReadU W64 p b).
  change (@ReadU32 H) with (@ReadU H W32).
  rewrite (ReadU_decode W64 p b Hlen).
  rewrite (ReadU_decode W32 p b) by (cbn [nbytes]; lia).
  rewrite (ReadU_decode W32 p (skipn 4 b))
    by (rewrite length_skipn; cbn [nbytes]; lia).
  eexists _, _, _. repeat (split; [reflexivity|]).
  cbn [value nbytes].
  repeat (destruct b as [|? b]; [cbn [length] in Hlen; lia|]).
  unfold decode.
  destruct (Endian p);
    cbn [firstn skipn little_endian big_endian fold_right fold_left]; lia.
Qed.

Lemma read64_from_read32_witness :
  exists r (first second : outcome unit),
    ReadU64 {| Handles := tt; IBuf := []; B := []; Endian := true;
               TriceSize := 0; ParamSpace := 0; SLen := 0 |}
            [Byte.x01; Byte.x00; Byte.x00; Byte.x00;
             Byte.x02; Byte.x00; Byte.x00; Byte.x00] = Some r /\
    value first = 1 /\ value second = 2 /\
    value r = value first + 4294967296 * value second.
Proof.
  destruct (read64_from_read32
              {| Handles := tt; IBuf := []; B := []; Endian := true;
                 TriceSize := 0; ParamSpace := 0; SLen := 0 |}
              [Byte.x01; Byte.x00; Byte.x00; Byte.x00;
               Byte.x02; Byte.x00; Byte.x00; Byte.x00])
    as (r & a & c & H1 & H2 & H3 & H4).
  - cbn. lia.
  - exists r, a, c. split; [exact H1|].
    injection H2 as <-. injection H3 as <-.
    split; [reflexivity|]. split; [reflexivity | exact H4].
Defined.

Local Close Scope Z_scope.

(** * Dump *)

Lemma fold_Fprintf_02x b : forall w,
  fold_left Fprintf_02x b w = w ++ map (fun x => hex2 x ++ [" "]) b.
Proof.
  induction b as [|x b IH]; intros w; cbn [fold_left map].
  - symmetry. apply app_nil_r.
  - rewrite IH. unfold Fprintf_02x, Write. rewrite <- app_assoc. reflexivity.
Qed.

Lemma written_Dump w b :
  written (Dump w b)
  = written w ++ concat (map (fun x => hex2 x ++ [" "]) b) ++ [newline].
Proof.
  unfold written, Dump, Fprintln_empty, Write.
  rewrite fold_Fprintf_02x, !concat_app. cbn [concat app].
  rewrite app_assoc. reflexivity.
Qed.

Lemma undump_byte x rest :
  undump (hex2 x ++ " " :: rest)
  = match undump rest with Some bs => Some (x :: bs) | None => None end.
Proof. destruct x; reflexivity. Qed.

Lemma undump_line b :
  undump (concat (map (fun x => hex2 x ++ [" "]) b) ++ [newline]) = Some b.
Proof.
  induction b as [|x b IH].
  - reflexivity.
  - cbn [map concat]. rewrite <- !app_assoc. cbn [app].
    rewrite undump_byte, IH. reflexivity.
Qed.

(** X14. [Dump] writes one line that can be read back: on a fresh writer the
    text written is, byte for byte of [b], two lower-case hexadecimal
    digits and a blank, then a line feed, and reading it back gives
    [b]; the text has three bytes for every byte of [b] and one more,
    handed over in one [Write] per byte and one for the line feed; what
    a writer held before stays in front. *)
Theorem Dump_reads_back w b :
  undump (written (Dump [] b)) = Some b /\
  length (written (Dump [] b)) = 3 * length b + 1 /\
  length (Dump w b) = length w + length b + 1 /\
  written (Dump w b) = written w ++ written (Dump [] b).
Proof.
  split; [|split; [|split]].
  - rewrite written_Dump. cbn [written concat app]. apply undump_line.
  - rewrite written_Dump. cbn [written concat app].
    rewrite length_app. cbn [length].
    induction b as [|x b IH]; [reflexivity|].
    cbn [map concat]. rewrite length_app in *. cbn [length app hex2] in *.
    lia.
  - unfold Dump, Fprintln_empty, Write.
    rewrite fold_Fprintf_02x, !length_app, length_map. cbn [length]. lia.
  - rewrite !written_Dump. reflexivity.
Qed.

(** X15. Two byte slices with the same dump are the same slice. *)
Theorem Dump_injective b1 b2 :
  written (Dump [] b1) = written (Dump [] b2) -> b1 = b2.
Proof.
  intros E.
  assert (H : undump (written (Dump [] b1)) = undump (written (Dump [] b2)))
    by (rewrite E; reflexivity).
  rewrite !written_Dump in H. cbn [written concat app] in H.
  rewrite !undump_line in H. congruence.
Qed.

Lemma Dump_injective_witness : [Byte.x0a; Byte.xff] = [Byte.x0a; Byte.xff].
Proof. apply Dump_injective. reflexivity. Defined.

(** * The EXTI driver *)

Local Open Scope Z_scope.
Import EXTI.

Lemma testbit_not32 m n :
  0 <= n -> Z.testbit (not32 m) n = (n <? 32) && negb (Z.testbit m n).
Proof.
  intros Hn. unfold not32. destruct (Z.ltb_spec n 32).
  - rewrite Z.mod_pow2_bits_low, Z.lnot_spec by lia. reflexivity.
  - rewrite Z.mod_pow2_bits_high by lia. reflexivity.
Qed.

Lemma testbit_set_bits r m n :
  Z.testbit (set_bits r m) n = Z.testbit r n || Z.testbit m n.
Proof. apply Z.lor_spec. Qed.

Lemma testbit_clear_bits r m n :
  0 <= n ->
  Z.testbit (clear_bits r m) n
  = Z.testbit r n && ((n <? 32) && negb (Z.testbit m n)).
Proof.
  intros Hn. unfold clear_bits. rewrite Z.land_spec, testbit_not32 by exact Hn.
  reflexivity.
Qed.

Lemma all_set_after_set r m : all_set (set_bits r m) m = 1.
Proof.
  unfold all_set.
  assert (E : Z.land (set_bits r m) m = m).
  { apply Z.bits_inj'. intros n _.
    rewrite Z.land_spec, testbit_set_bits.
    destruct (Z.testbit r n), (Z.testbit m n); reflexivity. }
  rewrite E, Z.eqb_refl. reflexivity.
Qed.

Lemma all_set_after_clear r m : m <> 0 -> all_set (clear_bits r m) m = 0.
Proof.
  intros Hm. unfold all_set.
  assert (E : Z.land (clear_bits r m) m = 0).
  { apply Z.bits_inj'. intros n Hn.
    rewrite Z.land_spec, testbit_clear_bits, Z.bits_0 by exact Hn.
    destruct (Z.testbit r n), (n <? 32), (Z.testbit m n); reflexivity. }
  rewrite E. destruct (Z.eqb_spec 0 m); [congruence | reflexivity].
Qed.

Lemma all_set_set_other r m m' :
  all_set r m = 1 -> all_set (set_bits r m') m = 1.
Proof.
  unfold all_set. destruct (Z.eqb_spec (Z.land r m) m) as [E|]; [|discriminate].
  intros _.
  assert (E' : Z.land (set_bits r m') m = m).
  { apply Z.bits_inj'. intros n _.
    assert (En : Z.testbit (Z.land r m) n = Z.testbit m n) by (rewrite E; reflexivity).
    rewrite Z.land_spec in En.
    rewrite Z.land_spec, testbit_set_bits.
    destruct (Z.testbit r n), (Z.testbit m' n), (Z.testbit m n);
      cbn in *; congruence. }
  rewrite E', Z.eqb_refl. reflexivity.
Qed.

Lemma word_bits x : word x <-> 0 <= x /\ forall n, 32 <= n -> Z.testbit x n = false.
Proof.
  unfold word. split.
  - intros [H0 H1]. split; [exact H0|]. intros n Hn.
    destruct (Z.eq_dec x 0) as [->|Hx]; [apply Z.bits_0|].
    apply Z.bits_above_log2; [exact H0|].
    assert (Z.log2 x < 32) by (apply Z.log2_lt_pow2; lia). lia.
  - intros [H0 Hb]. split; [exact H0|].
    assert (E : x = x mod 2 ^ 32).
    { apply Z.bits_inj'. intros n Hn. destruct (Z.lt_ge_cases n 32).
      - rewrite Z.mod_pow2_bits_low by lia. reflexivity.
      - rewrite Z.mod_pow2_bits_high, Hb by lia. reflexivity. }
    rewrite E. apply Z.mod_pos_bound. lia.
Qed.

Lemma word_set_bits r m : word r -> word m -> word (set_bits r m).
Proof.
  intros Hr Hm. apply word_bits in Hr as [Hr0 Hr], Hm as [Hm0 Hm].
  apply word_bits. split.
  - unfold set_bits. apply Z.lor_nonneg. auto.
  - intros n Hn. rewrite testbit_set_bits, Hr, Hm by exact Hn. reflexivity.
Qed.

Lemma word_clear_bits r m : word r -> word (clear_bits r m).
Proof.
  intros Hr. apply word_bits in Hr as [Hr0 Hr].
  apply word_bits. split.
  - unfold clear_bits. apply Z.land_nonneg. left. exact Hr0.
  - intros n Hn. rewrite testbit_clear_bits, Hr by lia. reflexivity.
Qed.

Lemma clear_bits_none r : word r -> clear_bits r 0 = r.
Proof.
  intros Hr. apply word_bits in Hr as [Hr0 Hr].
  apply Z.bits_inj'. intros n Hn.
  rewrite testbit_clear_bits, Z.bits_0 by exact Hn.
  destruct (Z.ltb_spec n 32).
  - cbn. apply andb_true_r.
  - rewrite Hr by lia. reflexivity.
Qed.

Ltac init_cases st :=
  unfold LL_EXTI_Init, init_mode, init_trigger;
  destruct (LineCommand st);
  repeat match goal with
         | |- context [Z.eqb ?a ?b] => destruct (Z.eqb_spec a b)
         end;
  cbn [negb fst snd IMR EMR RTSR FTSR SWIER PR with_IMR with_EMR with_RTSR
       with_FTSR LL_EXTI_EnableIT_0_31 LL_EXTI_DisableIT_0_31
       LL_EXTI_EnableEvent_0_31 LL_EXTI_DisableEvent_0_31
       LL_EXTI_EnableRisingTrig_0_31 LL_EXTI_DisableRisingTrig_0_31
       LL_EXTI_EnableFallingTrig_0_31 LL_EXTI_DisableFallingTrig_0_31
       LL_EXTI_IsEnabledIT_0_31 LL_EXTI_IsEnabledEvent_0_31
       LL_EXTI_IsEnabledRisingTrig_0_31 LL_EXTI_IsEnabledFallingTrig_0_31].

(** X16. [LL_EXTI_Init] touches the lines it is given only: [SWIER]
    and [PR] are not written at all, whatever the structure holds, and
    a bit of [IMR], [EMR], [RTSR], [FTSR] whose line is not in
    [Line_0_31] is as before, whatever the command, mode and trigger
    are. *)
Theorem init_leaves_other_lines st s :
  let s' := snd (LL_EXTI_Init st s) in
  SWIER s' = SWIER s /\ PR s' = PR s /\
  forall n, 0 <= n < 32 -> Z.testbit (Line_0_31 st) n = false ->
    Z.testbit (IMR s') n = Z.testbit (IMR s) n /\
    Z.testbit (EMR s') n = Z.testbit (EMR s) n /\
    Z.testbit (RTSR s') n = Z.testbit (RTSR s) n /\
    Z.testbit (FTSR s') n = Z.testbit (FTSR s) n.
Proof.
  cbv zeta. split; [|split].
  - init_cases st; reflexivity.
  - init_cases st; reflexivity.
  - intros n Hn Hl.
    assert (Hlt : (n <? 32) = true) by (apply Z.ltb_lt; lia).
    init_cases st;
      rewrite ?testbit_set_bits, ?testbit_clear_bits, ?testbit_set_bits,
        ?testbit_clear_bits, ?Hl, ?Hlt by lia;
      cbn [negb andb orb]; rewrite ?andb_true_r, ?orb_false_r;
      repeat split; reflexivity.
Qed.

Lemma init_leaves_other_lines_witness :
  Z.testbit
    (IMR (snd (LL_EXTI_Init
                 {| Line_0_31 := 4; LineCommand := DISABLE; Mode := 0;
                    Trigger := 0 |}
                 {| IMR := 7; EMR := 0; RTSR := 0; FTSR := 0; SWIER := 0;
                    PR := 0 |}))) 0 = true.
Proof.
  apply (proj2 (proj2 (init_leaves_other_lines
           {| Line_0_31 := 4; LineCommand := DISABLE; Mode := 0; Trigger := 0 |}
           {| IMR := 7; EMR := 0; RTSR := 0; FTSR := 0; SWIER := 0; PR := 0 |}))
           0).
  - lia.
  - reflexivity.
Defined.

(** X17. Disabling.  With [LineCommand = DISABLE] the call succeeds whatever
    the mode and the trigger say, the interrupt and the event of the
    given lines are off afterwards, and the trigger registers are not
    touched. *)
Theorem init_disable st s :
  LineCommand st = DISABLE -> Line_0_31 st <> 0 ->
  let r := LL_EXTI_Init st s in
  fst r = SUCCESS /\
  LL_EXTI_IsEnabledIT_0_31 (Line_0_31 st) (snd r) = 0 /\
  LL_EXTI_IsEnabledEvent_0_31 (Line_0_31 st) (snd r) = 0 /\
  (forall n, 0 <= n -> Z.testbit (Line_0_31 st) n = true ->
     Z.testbit (IMR (snd r)) n = false /\ Z.testbit (EMR (snd r)) n = false) /\
  RTSR (snd r) = RTSR s /\ FTSR (snd r) = FTSR s.
Proof.
  intros Hc Hl. cbv zeta. unfold LL_EXTI_Init. rewrite Hc.
  unfold LL_EXTI_IsEnabledIT_0_31, LL_EXTI_IsEnabledEvent_0_31.
  cbn [fst snd IMR EMR RTSR FTSR with_IMR with_EMR
       LL_EXTI_DisableIT_0_31 LL_EXTI_DisableEvent_0_31].
  rewrite !all_set_after_clear by exact Hl.
  repeat split;
    rewrite testbit_clear_bits by assumption;
    rewrite H0; cbn [negb]; rewrite andb_false_r; apply andb_false_r.
Qed.

Lemma init_disable_witness :
  LL_EXTI_IsEnabledIT_0_31 6
    (snd (LL_EXTI_Init
            {| Line_0_31 := 6; LineCommand := DISABLE; Mode := 9; Trigger := 9 |}
            {| IMR := 7; EMR := 2; RTSR := 0; FTSR := 0; SWIER := 0; PR := 0 |}))
  = 0.
Proof.
  apply (init_disable
           {| Line_0_31 := 6; LineCommand := DISABLE; Mode := 9; Trigger := 9 |}
           {| IMR := 7; EMR := 2; RTSR := 0; FTSR := 0; SWIER := 0; PR := 0 |}).
  - reflexivity.
  - discriminate.
Defined.

(** X18. Enabling.  With [LineCommand = ENABLE], lines given and a mode of
    0, 1 or 2, the interrupt of the lines is on afterwards unless the
    mode is 1 (event only) and their event is on unless the mode is 0
    (interrupt only), whatever the trigger says. *)
Theorem init_enable_mode st s :
  LineCommand st = ENABLE -> Line_0_31 st <> 0 ->
  Mode st = 0 \/ Mode st = 1 \/ Mode st = 2 ->
  let s' := snd (LL_EXTI_Init st s) in
  LL_EXTI_IsEnabledIT_0_31 (Line_0_31 st) s' = (if Mode st =? 1 then 0 else 1) /\
  LL_EXTI_IsEnabledEvent_0_31 (Line_0_31 st) s' = (if Mode st =? 0 then 0 else 1).
Proof.
  intros Hc Hl Hm. cbv zeta.
  unfold LL_EXTI_Init, init_mode, init_trigger. rewrite Hc.
  destruct (Z.eqb_spec (Line_0_31 st) 0) as [|_]; [contradiction|].
  cbn [negb].
  destruct Hm as [Hm|[Hm|Hm]]; rewrite Hm; cbn [Z.eqb Pos.eqb];
    repeat match goal with
           | |- context [Z.eqb ?a ?b] => destruct (Z.eqb_spec a b)
           end;
    unfold LL_EXTI_IsEnabledIT_0_31, LL_EXTI_IsEnabledEvent_0_31,
      LL_EXTI_IsEnabledRisingTrig_0_31, LL_EXTI_IsEnabledFallingTrig_0_31;
    cbn [negb fst snd IMR EMR RTSR FTSR with_IMR with_EMR with_RTSR with_FTSR
         LL_EXTI_EnableIT_0_31 LL_EXTI_DisableIT_0_31
         LL_EXTI_EnableEvent_0_31 LL_EXTI_DisableEvent_0_31
         LL_EXTI_EnableRisingTrig_0_31 LL_EXTI_DisableRisingTrig_0_31
         LL_EXTI_EnableFallingTrig_0_31 LL_EXTI_DisableFallingTrig_0_31
         LL_EXTI_IsEnabledIT_0_31 LL_EXTI_IsEnabledEvent_0_31];
    rewrite ?all_set_after_set, ?all_set_after_clear by exact Hl;
    split; reflexivity.
Qed.

Lemma init_enable_mode_witness :
  LL_EXTI_IsEnabledEvent_0_31 8
    (snd (LL_EXTI_Init
            {| Line_0_31 := 8; LineCommand := ENABLE; Mode := 0; Trigger := 1 |}
            {| IMR := 0; EMR := 8; RTSR := 0; FTSR := 0; SWIER := 0; PR := 0 |}))
  = 0.
Proof.
  apply (init_enable_mode
           {| Line_0_31 := 8; LineCommand := ENABLE; Mode := 0; Trigger := 1 |}
           {| IMR := 0; EMR := 8; RTSR := 0; FTSR := 0; SWIER := 0; PR := 0 |}).
  - reflexivity.
  - discriminate.
  - left. reflexivity.
Defined.

(** X19. Triggers.  With [LineCommand = ENABLE], lines given and a trigger of
    1, 2 or 3, the rising trigger of the lines is on afterwards unless
    the trigger is 2 (falling only) and the falling one is on unless it
    is 1 (rising only); this holds for a mode out of range too.  With
    trigger 0 the trigger registers are not touched. *)
Theorem init_trigger_edges st s :
  LineCommand st = ENABLE -> Line_0_31 st <> 0 ->
  let s' := snd (LL_EXTI_Init st s) in
  (Trigger st = 1 \/ Trigger st = 2 \/ Trigger st = 3 ->
   LL_EXTI_IsEnabledRisingTrig_0_31 (Line_0_31 st) s'
     = (if Trigger st =? 2 then 0 else 1) /\
   LL_EXTI_IsEnabledFallingTrig_0_31 (Line_0_31 st) s'
     = (if Trigger st =? 1 then 0 else 1)) /\
  (Trigger st = 0 -> RTSR s' = RTSR s /\ FTSR s' = FTSR s).
Proof.
  intros Hc Hl. cbv zeta.
  unfold LL_EXTI_Init, init_mode, init_trigger. rewrite Hc.
  destruct (Z.eqb_spec (Line_0_31 st) 0) as [|_]; [contradiction|].
  cbn [negb].
  split.
  - intros Ht.
    destruct Ht as [Ht|[Ht|Ht]]; rewrite Ht; cbn [Z.eqb Pos.eqb];
      repeat match goal with
             | |- context [Z.eqb ?a ?b] => destruct (Z.eqb_spec a b)
             end;
      unfold LL_EXTI_IsEnabledIT_0_31, LL_EXTI_IsEnabledEvent_0_31,
      LL_EXTI_IsEnabledRisingTrig_0_31, LL_EXTI_IsEnabledFallingTrig_0_31;
      cbn [negb fst snd IMR EMR RTSR FTSR with_IMR with_EMR with_RTSR with_FTSR
           LL_EXTI_EnableIT_0_31 LL_EXTI_DisableIT_0_31
           LL_EXTI_EnableEvent_0_31 LL_EXTI_DisableEvent_0_31
           LL_EXTI_EnableRisingTrig_0_31 LL_EXTI_DisableRisingTrig_0_31
           LL_EXTI_EnableFallingTrig_0_31 LL_EXTI_DisableFallingTrig_0_31
           LL_EXTI_IsEnabledRisingTrig_0_31 LL_EXTI_IsEnabledFallingTrig_0_31];
      rewrite ?all_set_after_set, ?all_set_after_clear by exact Hl;
      split; reflexivity.
  - intros Ht. rewrite Ht. cbn [Z.eqb negb].
    repeat match goal with
           | |- context [Z.eqb ?a ?b] => destruct (Z.eqb_spec a b)
           end;
      split; reflexivity.
Qed.

Lemma init_trigger_edges_witness :
  LL_EXTI_IsEnabledFallingTrig_0_31 1
    (snd (LL_EXTI_Init
            {| Line_0_31 := 1; LineCommand := ENABLE; Mode := 7; Trigger := 1 |}
            {| IMR := 0; EMR := 0; RTSR := 0; FTSR := 1; SWIER := 0; PR := 0 |}))
  = 0.
Proof.
  apply (init_trigger_edges
           {| Line_0_31 := 1; LineCommand := ENABLE; Mode := 7; Trigger := 1 |}
           {| IMR := 0; EMR := 0; RTSR := 0; FTSR := 1; SWIER := 0; PR := 0 |}).
  - reflexivity.
  - discriminate.
  - left. reflexivity.
Defined.

(** X20. Status.  [LL_EXTI_Init] returns [ERROR] exactly when it is asked to
    enable a non-empty set of lines with a mode above 2 or a trigger
    above 3: a bad mode or trigger is not reported when the command is
    [DISABLE] or no line is given. *)
Theorem init_status st s :
  0 <= Mode st -> 0 <= Trigger st ->
  (fst (LL_EXTI_Init st s) = ERROR <->
   LineCommand st = ENABLE /\ Line_0_31 st <> 0 /\
   (2 < Mode st \/ 3 < Trigger st)).
Proof.
  intros Hm Ht. init_cases st; split;
    try (intros E; discriminate E);
    try (intros (E & _); discriminate E);
    try (intros (_ & E & _); contradiction);
    try (intros _; repeat split; try assumption; try reflexivity; lia);
    try (intros (_ & _ & E); lia);
    try reflexivity.
Qed.

Lemma init_status_witness :
  fst (LL_EXTI_Init
         {| Line_0_31 := 1; LineCommand := ENABLE; Mode := 3; Trigger := 1 |}
         {| IMR := 0; EMR := 0; RTSR := 0; FTSR := 0; SWIER := 0; PR := 0 |})
  = ERROR.
Proof.
  apply (init_status
           {| Line_0_31 := 1; LineCommand := ENABLE; Mode := 3; Trigger := 1 |}
           {| IMR := 0; EMR := 0; RTSR := 0; FTSR := 0; SWIER := 0; PR := 0 |}).
  - cbn. lia.
  - cbn. lia.
  - cbn. split; [reflexivity|]. split; [discriminate | lia].
Defined.

(** X21. The registers stay 32-bit words under [LL_EXTI_Init] when the line
    mask is one. *)
Theorem init_keeps_words st s :
  words s -> word (Line_0_31 st) -> words (snd (LL_EXTI_Init st s)).
Proof.
  intros (H1 & H2 & H3 & H4 & H5 & H6) Hl. unfold words.
  init_cases st;
    repeat match goal with |- word _ /\ _ => split end;
    auto using word_set_bits, word_clear_bits.
Qed.

Lemma init_keeps_words_witness :
  words (snd (LL_EXTI_Init
    {| Line_0_31 := 5; LineCommand := ENABLE; Mode := 2; Trigger := 3 |}
    {| IMR := 0; EMR := 0; RTSR := 0; FTSR := 0; SWIER := 0; PR := 0 |})).
Proof.
  apply init_keeps_words; unfold words, word; cbn; lia.
Defined.

(** X22. The initial structure.  [LL_EXTI_Init] on what [LL_EXTI_StructInit]
    leaves in the structure succeeds and changes no register. *)
Theorem init_of_StructInit st s :
  words s -> LL_EXTI_Init (LL_EXTI_StructInit st) s = (SUCCESS, s).
Proof.
  intros (H1 & H2 & _).
  unfold LL_EXTI_Init, LL_EXTI_StructInit.
  cbn [LineCommand Line_0_31]. f_equal.
  unfold LL_EXTI_DisableEvent_0_31, LL_EXTI_DisableIT_0_31, with_EMR, with_IMR.
  cbn [IMR EMR RTSR FTSR SWIER PR].
  rewrite !clear_bits_none by assumption. destruct s; reflexivity.
Qed.

Lemma init_of_StructInit_witness :
  LL_EXTI_Init
    (LL_EXTI_StructInit
       {| Line_0_31 := 255; LineCommand := ENABLE; Mode := 2; Trigger := 3 |})
    {| IMR := 0x0F940000; EMR := 0; RTSR := 0; FTSR := 0; SWIER := 0;
       PR := 0x007BFFFF |}
  = (SUCCESS,
     {| IMR := 0x0F940000; EMR := 0; RTSR := 0; FTSR := 0; SWIER := 0;
        PR := 0x007BFFFF |}).
Proof.
  apply init_of_StructInit. unfold words, word. cbn. lia.
Defined.

(** X23. The interrupt mask, line by line.  Enabling lines makes them read
    as enabled and keeps enabled what was, two enablings are the
    enabling of the union, and disabling lines makes any non-empty set
    of them read as not enabled, an enabling before it notwithstanding. *)
Theorem enable_disable_IT l l' s :
  LL_EXTI_IsEnabledIT_0_31 l (LL_EXTI_EnableIT_0_31 l s) = 1 /\
  (LL_EXTI_IsEnabledIT_0_31 l' s = 1 ->
   LL_EXTI_IsEnabledIT_0_31 l' (LL_EXTI_EnableIT_0_31 l s) = 1) /\
  LL_EXTI_EnableIT_0_31 l' (LL_EXTI_EnableIT_0_31 l s)
    = LL_EXTI_EnableIT_0_31 (Z.lor l l') s /\
  (l <> 0 ->
   LL_EXTI_IsEnabledIT_0_31 l
     (LL_EXTI_DisableIT_0_31 l (LL_EXTI_EnableIT_0_31 l s)) = 0).
Proof.
  unfold LL_EXTI_IsEnabledIT_0_31, LL_EXTI_EnableIT_0_31,
    LL_EXTI_DisableIT_0_31, with_IMR.
  cbn [IMR EMR RTSR FTSR SWIER PR].
  split; [apply all_set_after_set|].
  split; [apply all_set_set_other|].
  split.
  - unfold set_bits. rewrite Z.lor_assoc. reflexivity.
  - apply all_set_after_clear.
Qed.

Lemma enable_disable_IT_witness :
  LL_EXTI_IsEnabledIT_0_31 2
    (LL_EXTI_DisableIT_0_31 2
       (LL_EXTI_EnableIT_0_31 2
          {| IMR := 0; EMR := 0; RTSR := 0; FTSR := 0; SWIER := 0; PR := 0 |}))
  = 0.
Proof.
  apply (enable_disable_IT 2 0). discriminate.
Defined.
